(** * The safe expression evaluator and the calculator session of python5.py

    A shallow embedding of [safe_eval_expr] (with its inner [_eval] and the two
    dispatch tables) and of the methods of the [Calculator] class, together with
    the part of the Python runtime they rest on: the [ast] node classes, the
    numeric tower (int, bool, float, complex) and the [math] wrappers.

    The runtime is modelled after CPython 3.9 to 3.13: [ast.parse] builds
    [Constant] nodes, and [ast.Num] is the deprecated alias whose instance test
    accepts a [Constant] holding an int, a float or a complex (and no bool).
    Floats are IEEE binary64, Rocq's primitive floats.  What the platform's C
    library decides (sin, cos, tan, log, pow, fmod, the shortest repr of a
    float) and the configured limit on the digits of an int are parameters,
    the class [Libm]. *)

From Stdlib Require Import ZArith String Ascii List Floats Lia Bool.
From stdpp Require Import base option list gmap strings pretty.

Open Scope Z_scope.

(** ** Exceptions and the error monad *)

(** The classes of the exceptions that can be raised; [NotModelled] is no
    Python exception: it marks an input the model of the parser does not
    cover. *)
Inductive exn_class :=
| ValueError | SyntaxError | ZeroDivisionError | TypeError | OverflowError
| RecursionError | NotModelled.

Record exn := Exn { exn_cls : exn_class; exn_msg : string }.

Inductive result (A : Type) :=
| Ok (a : A)
| Raise (e : exn).
Arguments Ok {A} a.
Arguments Raise {A} e.

#[global] Instance result_ret : MRet result := fun A a => Ok a.
#[global] Instance result_bind : MBind result := fun A B f m =>
  match m with Ok a => f a | Raise e => Raise e end.

Definition raise {A} (c : exn_class) (msg : string) : result A :=
  Raise (Exn c msg).


(** [[_eval(a) for a in node.args]]: left to right, the first exception wins. *)
Fixpoint mapM {A B} (f : A -> result B) (l : list A) : result (list B) :=
  match l with
  | [] => Ok []
  | a :: l' => b ← f a; bs ← mapM f l'; mret (b :: bs)
  end.

(** ** Python numbers *)

Inductive value :=
| VInt (n : Z)
| VBool (b : bool)
| VFloat (f : float)
| VComplex (re im : float).

(** The int an [int] or a [bool] (a subclass of [int]) stands for. *)
Definition int_of (v : value) : option Z :=
  match v with
  | VInt n => Some n
  | VBool b => Some (Z.b2z b)
  | _ => None
  end.

(** *** Conversions between int and float *)

(** [m * 2^e] rounded to the nearest binary64, ties to even. *)
Definition Z2float (m e : Z) : float :=
  SF2Prim (binary_normalize prec emax m e false).

(** [n / d] for [d > 0], correctly rounded: the quotient is taken with at
    least 64 bits and a sticky bit for the remainder. *)
Definition ratio_to_float (n d : Z) : float :=
  if n =? 0 then 0%float else
  let a := Z.abs n in
  let k := Z.max 0 (Z.log2 d - Z.log2 a + 64) in
  let q := (a * 2 ^ k) / d in
  let m := if (a * 2 ^ k) mod d =? 0 then q else Z.lor q 1 in
  Z2float (Z.sgn n * m) (- k).

(** [PyLong_AsDouble]. *)
Definition int_to_float (n : Z) : result float :=
  let f := Z2float n 0 in
  if PrimFloat.is_finite f then Ok f
  else raise OverflowError "int too large to convert to float".

(** The integer a finite float with no fractional part stands for. *)
Definition float_integral (f : float) : option Z :=
  match Prim2SF f with
  | S754_zero _ => Some 0
  | S754_finite s m e =>
      let sg := if s then (-1) else 1 in
      if 0 <=? e then Some (sg * (Z.pos m * 2 ^ e))
      else if Z.pos m mod 2 ^ (- e) =? 0 then Some (sg * (Z.pos m / 2 ^ (- e)))
      else None
  | _ => None
  end.

(** [float.is_integer()]. *)
Definition float_is_integer (f : float) : bool :=
  match float_integral f with Some _ => true | None => false end.

(** [n / d] rounded to the nearest integer, ties to even ([d > 0]). *)
Definition div_half_even (n d : Z) : Z :=
  let q := n / d in
  let r := n mod d in
  match 2 * r ?= d with
  | Lt => q
  | Gt => q + 1
  | Eq => if Z.even q then q else q + 1
  end.

(** [float.__round__()] with no [ndigits]: the nearest int, ties to even. *)
Definition float_round (f : float) : result value :=
  match Prim2SF f with
  | S754_zero _ => Ok (VInt 0)
  | S754_finite s m e =>
      let sg := if s then (-1) else 1 in
      if 0 <=? e then Ok (VInt (sg * (Z.pos m * 2 ^ e)))
      else Ok (VInt (sg * div_half_even (Z.pos m) (2 ^ (- e))))
  | S754_infinity _ =>
      raise OverflowError "cannot convert float infinity to integer"
  | S754_nan => raise ValueError "cannot convert float NaN to integer"
  end.

(** ** What the platform decides *)

(** The C library behind [math] and behind float and complex arithmetic, and
    the runtime's number formatting.  The evaluator is defined for any
    instance; nothing is assumed of these functions. *)
Class Libm := {
  c_sin : float -> float;
  c_cos : float -> float;
  c_tan : float -> float;
  c_log : float -> float;
  c_log10 : float -> float;
  (** [float.__pow__]: a float, a complex for a negative base with a
      fractional exponent, or ZeroDivisionError / OverflowError *)
  float_pow : float -> float -> result value;
  (** [float.__mod__] for a divisor that is not zero *)
  float_rem : float -> float -> float;
  (** complex quotient for a divisor that is not zero *)
  complex_quot : float * float -> float * float -> float * float;
  complex_pow : float * float -> float * float -> result value;
  (** [abs] of a complex: the modulus, or OverflowError *)
  complex_abs : float * float -> result value;
  (** [round(x, ndigits)] for a float [x] *)
  float_round_ndigits : float -> Z -> result value;
  (** [repr] of a float that is not a whole number below 1e16 *)
  float_repr : float -> string;
  complex_str : float * float -> string;
  (** [sys.get_int_max_str_digits()]: the most digits an int may have when it
      is converted from or to decimal text; 0 for no limit, 4300 unless
      configured *)
  int_max_str_digits : Z
}.

(** An int of [n] decimal digits is too long to be converted from or to
    text.  The limit never applies to 640 digits or fewer. *)
Definition too_many_digits `{Libm} (n : nat) : bool :=
  (640 <? n)%nat
  && ((0 <? int_max_str_digits) && (int_max_str_digits <? Z.of_nat n)).

(** ** Arithmetic of the numeric tower *)

Definition to_float (v : value) : result float :=
  match v with
  | VFloat f => Ok f
  | VInt n => int_to_float n
  | VBool b => int_to_float (Z.b2z b)
  | VComplex _ _ => raise TypeError "must be real number, not complex"
  end.

Definition to_complex (v : value) : result (float * float) :=
  match v with
  | VComplex re im => Ok (re, im)
  | _ => f ← to_float v; mret (f, 0%float)
  end.

(** The common type two operands are brought to before a binary operation. *)
Inductive operands :=
| IntOps (a b : Z)
| FloatOps (a b : float)
| ComplexOps (a b : float * float).

Definition coerce (x y : value) : result operands :=
  match int_of x, int_of y with
  | Some a, Some b => Ok (IntOps a b)
  | _, _ =>
      match x, y with
      | VComplex _ _, _ | _, VComplex _ _ =>
          a ← to_complex x; b ← to_complex y; mret (ComplexOps a b)
      | _, _ => a ← to_float x; b ← to_float y; mret (FloatOps a b)
      end
  end.

Definition float_is_zero (f : float) : bool := (f =? 0)%float.

Definition complex_is_zero (c : float * float) : bool :=
  float_is_zero (fst c) && float_is_zero (snd c).

Section Arithmetic.
Context `{Libm}.

(** [operator.add] *)
Definition py_add (x y : value) : result value :=
  o ← coerce x y;
  match o with
  | IntOps a b => Ok (VInt (a + b))
  | FloatOps a b => Ok (VFloat (a + b))
  | ComplexOps (ar, ai) (br, bi) => Ok (VComplex (ar + br) (ai + bi))
  end.

(** [operator.sub] *)
Definition py_sub (x y : value) : result value :=
  o ← coerce x y;
  match o with
  | IntOps a b => Ok (VInt (a - b))
  | FloatOps a b => Ok (VFloat (a - b))
  | ComplexOps (ar, ai) (br, bi) => Ok (VComplex (ar - br) (ai - bi))
  end.

(** [operator.mul] *)
Definition py_mul (x y : value) : result value :=
  o ← coerce x y;
  match o with
  | IntOps a b => Ok (VInt (a * b))
  | FloatOps a b => Ok (VFloat (a * b))
  | ComplexOps (ar, ai) (br, bi) =>
      Ok (VComplex (ar * br - ai * bi) (ar * bi + ai * br))
  end.

(** [operator.truediv]: a zero divisor raises, whatever its type. *)
Definition py_truediv (x y : value) : result value :=
  o ← coerce x y;
  match o with
  | IntOps a b =>
      if b =? 0 then raise ZeroDivisionError "division by zero"
      else
        let q := ratio_to_float (a * Z.sgn b) (Z.abs b) in
        if PrimFloat.is_finite q then Ok (VFloat q)
        else raise OverflowError "integer division result too large for a float"
  | FloatOps a b =>
      if float_is_zero b then raise ZeroDivisionError "float division by zero"
      else Ok (VFloat (a / b))
  | ComplexOps a b =>
      if complex_is_zero b
      then raise ZeroDivisionError "complex division by zero"
      else let '(re, im) := complex_quot a b in Ok (VComplex re im)
  end.

(** [operator.mod] *)
Definition py_mod (x y : value) : result value :=
  o ← coerce x y;
  match o with
  | IntOps a b =>
      if b =? 0 then raise ZeroDivisionError "integer division or modulo by zero"
      else Ok (VInt (a mod b))
  | FloatOps a b =>
      if float_is_zero b then raise ZeroDivisionError "float modulo"
      else Ok (VFloat (float_rem a b))
  | ComplexOps _ _ => raise TypeError "unsupported operand type(s) for %"
  end.

(** [operator.pow] *)
Definition py_pow (x y : value) : result value :=
  o ← coerce x y;
  match o with
  | IntOps a b =>
      if 0 <=? b then Ok (VInt (a ^ b))
      else fa ← int_to_float a; fb ← int_to_float b; float_pow fa fb
  | FloatOps a b => float_pow a b
  | ComplexOps a b => complex_pow a b
  end.

(** [operator.neg] *)
Definition py_neg (x : value) : result value :=
  match x with
  | VInt n => Ok (VInt (- n))
  | VBool b => Ok (VInt (- Z.b2z b))
  | VFloat f => Ok (VFloat (- f))
  | VComplex re im => Ok (VComplex (- re) (- im))
  end.

(** [operator.pos] *)
Definition py_pos (x : value) : result value :=
  match x with
  | VBool b => Ok (VInt (Z.b2z b))
  | _ => Ok x
  end.

(** *** The [math] module *)

(** CPython's [math_1]: the wrapper that turns a NaN or an infinity the C
    function produced from a finite argument into an exception. *)
Definition math_1 (func : float -> float) (can_overflow : bool) (x : float)
  : result value :=
  let r := func x in
  if PrimFloat.is_nan r && negb (PrimFloat.is_nan x)
  then raise ValueError "math domain error"
  else if PrimFloat.is_infinity r && PrimFloat.is_finite x
  then (if can_overflow then raise OverflowError "math range error"
        else raise ValueError "math domain error")
  else Ok (VFloat r).

(** CPython's [m_log] and [m_log10]: the C function on positive finite
    arguments only. *)
Definition m_log (clog : float -> float) (x : float) : float :=
  if PrimFloat.is_finite x then
    if (0 <? x)%float then clog x
    else if (x =? 0)%float then neg_infinity
    else nan
  else if PrimFloat.is_nan x then x
  else if (0 <? x)%float then x
  else nan.

(** [_PyLong_Frexp]: [n = x * 2^e] with [0.5 <= x < 1], for [n > 0]. *)
Definition long_frexp (n : Z) : float * Z :=
  let e := Z.log2 n + 1 in
  let x := ratio_to_float n (2 ^ e) in
  if (x =? 1)%float then (0.5%float, e + 1) else (x, e).

(** CPython's [loghelper]: ints are handled apart, so that the log of an int
    too large for a float is still computed. *)
Definition loghelper (func : float -> float) (arg : value) : result value :=
  match int_of arg with
  | Some n =>
      if n <=? 0 then raise ValueError "math domain error"
      else
        let f := Z2float n 0 in
        if PrimFloat.is_finite f then Ok (VFloat (func f))
        else
          let '(x, e) := long_frexp n in
          Ok (VFloat (func x + func 2%float * Z2float e 0))
  | None => x ← to_float arg; math_1 func false x
  end.

Definition wrong_arity {A} : result A :=
  raise TypeError "wrong number of arguments".

Definition math_real (func : float -> float) (args : list value)
  : result value :=
  match args with
  | [x] => f ← to_float x; math_1 func false f
  | _ => wrong_arity
  end.

(** [math.log(x[, base])] *)
Definition math_log_impl (args : list value) : result value :=
  match args with
  | [x] => loghelper (m_log c_log) x
  | [x; base] =>
      num ← loghelper (m_log c_log) x;
      den ← loghelper (m_log c_log) base;
      py_truediv num den
  | _ => wrong_arity
  end.

(** [math.log10(x)] *)
Definition math_log10_impl (args : list value) : result value :=
  match args with
  | [x] => loghelper (m_log c_log10) x
  | _ => wrong_arity
  end.

(** *** The builtins [abs] and [round] *)

Definition py_abs (args : list value) : result value :=
  match args with
  | [VInt n] => Ok (VInt (Z.abs n))
  | [VBool b] => Ok (VInt (Z.b2z b))
  | [VFloat f] => Ok (VFloat (PrimFloat.abs f))
  | [VComplex re im] => complex_abs (re, im)
  | _ => wrong_arity
  end.

Definition py_round (args : list value) : result value :=
  match args with
  | [x] =>
      match x with
      | VInt n => Ok (VInt n)
      | VBool b => Ok (VInt (Z.b2z b))
      | VFloat f => float_round f
      | VComplex _ _ =>
          raise TypeError "type complex doesn't define __round__ method"
      end
  | [x; nd] =>
      match x, int_of nd with
      | VComplex _ _, _ =>
          raise TypeError "type complex doesn't define __round__ method"
      | _, None => raise TypeError "object cannot be interpreted as an integer"
      | VFloat f, Some d => float_round_ndigits f d
      | _, Some d =>
          let n := default 0 (int_of x) in
          if 0 <=? d then Ok (VInt n)
          else Ok (VInt (div_half_even n (10 ^ (- d)) * 10 ^ (- d)))
      end
  | _ => wrong_arity
  end.

End Arithmetic.

(** ** The [ast] node classes *)

(** The value a [Constant] node holds. *)
Inductive constant :=
| CInt (n : Z)
| CFloat (f : float)
| CComplex (re im : float)
| CBool (b : bool)
| CNone
| CStr (s : string)
| CBytes (s : string)
| CEllipsis.

(** [ast.operator] and [ast.unaryop], as Python's abstract grammar lists them. *)
Inductive operator :=
| Add | Sub | Mult | MatMult | Div | Mod | Pow
| LShift | RShift | BitOr | BitXor | BitAnd | FloorDiv.

Inductive unaryop := Invert | Not | UAdd | USub.

(** [type(node.op)]: the class of an operator node, the key of
    [_ALLOWED_OPERATORS]. *)
Inductive op_type :=
| BinaryOp (o : operator)
| UnaryOperator (u : unaryop).

(** The expression nodes [_eval] tells apart.  [Other cls] stands for a node
    of any other class ([Compare], [BoolOp], [Lambda], [Starred], ...):
    [_eval] never looks inside one.  A keyword argument is a pair of its name
    ([None] for [**kwargs]) and its value. *)
#[local] Unset Elimination Schemes.
Inductive node :=
| Expression (body : node)
| Constant (value : constant)
| BinOp (left : node) (op : operator) (right : node)
| UnaryOp (op : unaryop) (operand : node)
| Call (func : node) (args : list node) (keywords : list (option string * node))
| Name (id : string)
| Expr (value : node)
| Other (cls : string).
#[local] Set Elimination Schemes.

#[global] Instance operator_eq_dec : EqDecision operator.
Proof. solve_decision. Defined.
#[global] Instance unaryop_eq_dec : EqDecision unaryop.
Proof. solve_decision. Defined.
#[global] Instance op_type_eq_dec : EqDecision op_type.
Proof. solve_decision. Defined.

Definition op_type_code (t : op_type) : nat :=
  match t with
  | BinaryOp Add => 0 | BinaryOp Sub => 1 | BinaryOp Mult => 2
  | BinaryOp MatMult => 3 | BinaryOp Div => 4 | BinaryOp Mod => 5
  | BinaryOp Pow => 6 | BinaryOp LShift => 7 | BinaryOp RShift => 8
  | BinaryOp BitOr => 9 | BinaryOp BitXor => 10 | BinaryOp BitAnd => 11
  | BinaryOp FloorDiv => 12
  | UnaryOperator Invert => 13 | UnaryOperator Not => 14
  | UnaryOperator UAdd => 15 | UnaryOperator USub => 16
  end%nat.

#[global] Instance op_type_code_inj : Inj (=) (=) op_type_code.
Proof. intros [[]|[]] [[]|[]]; simpl; congruence. Qed.

#[global] Instance op_type_countable : Countable op_type :=
  inj_countable' op_type_code
    (fun n => nth n
       [BinaryOp Add; BinaryOp Sub; BinaryOp Mult; BinaryOp MatMult;
        BinaryOp Div; BinaryOp Mod; BinaryOp Pow; BinaryOp LShift;
        BinaryOp RShift; BinaryOp BitOr; BinaryOp BitXor; BinaryOp BitAnd;
        BinaryOp FloorDiv; UnaryOperator Invert; UnaryOperator Not;
        UnaryOperator UAdd; UnaryOperator USub] (BinaryOp Add))
    ltac:(intros [[]|[]]; reflexivity).

(** [str(type(node.op))] *)
Definition op_type_str (t : op_type) : string :=
  "<class 'ast." +:+
  match t with
  | BinaryOp Add => "Add" | BinaryOp Sub => "Sub" | BinaryOp Mult => "Mult"
  | BinaryOp MatMult => "MatMult" | BinaryOp Div => "Div"
  | BinaryOp Mod => "Mod" | BinaryOp Pow => "Pow"
  | BinaryOp LShift => "LShift" | BinaryOp RShift => "RShift"
  | BinaryOp BitOr => "BitOr" | BinaryOp BitXor => "BitXor"
  | BinaryOp BitAnd => "BitAnd" | BinaryOp FloorDiv => "FloorDiv"
  | UnaryOperator Invert => "Invert" | UnaryOperator Not => "Not"
  | UnaryOperator UAdd => "UAdd" | UnaryOperator USub => "USub"
  end +:+ "'>".

(** [isinstance(node, ast.Num)] on a [Constant] node, and its [node.n]. *)
Definition Num_n (c : constant) : option value :=
  match c with
  | CInt n => Some (VInt n)
  | CFloat f => Some (VFloat f)
  | CComplex re im => Some (VComplex re im)
  | _ => None
  end.

(** [isinstance(node.value, (int, float))], and the value: [bool] is a
    subclass of [int], so [True] and [False] pass the test. *)
Definition int_or_float (c : constant) : option value :=
  match c with
  | CInt n => Some (VInt n)
  | CBool b => Some (VBool b)
  | CFloat f => Some (VFloat f)
  | _ => None
  end.

(** ** The evaluator of python5.py *)

(** The functions the two tables hold. *)
Inductive callable :=
| op_add | op_sub | op_mul | op_truediv | op_pow | op_mod | op_neg | op_pos
| math_sqrt | math_sin | math_cos | math_tan | math_log | math_log10
| builtin_abs | builtin_round.

Definition _ALLOWED_OPERATORS : gmap op_type callable :=
  list_to_map [
    (BinaryOp Add, op_add);
    (BinaryOp Sub, op_sub);
    (BinaryOp Mult, op_mul);
    (BinaryOp Div, op_truediv);
    (BinaryOp Pow, op_pow);
    (BinaryOp Mod, op_mod);
    (UnaryOperator USub, op_neg);
    (UnaryOperator UAdd, op_pos)
  ].

Definition _ALLOWED_FUNCTIONS : gmap string callable :=
  list_to_map [
    ("sqrt", math_sqrt);
    ("sin", math_sin);
    ("cos", math_cos);
    ("tan", math_tan);
    ("log", math_log);
    ("log10", math_log10);
    ("abs", builtin_abs);
    ("round", builtin_round)
  ].

(** [math.pi] and [math.e] *)
Definition math_pi : float := 0x1.921fb54442d18p+1%float.
Definition math_e : float := 0x1.5bf0a8b145769p+1%float.

Section Evaluator.
Context `{Libm}.

(** Calling a table entry with positional arguments. *)
Definition call (f : callable) (args : list value) : result value :=
  match f, args with
  | op_add, [a; b] => py_add a b
  | op_sub, [a; b] => py_sub a b
  | op_mul, [a; b] => py_mul a b
  | op_truediv, [a; b] => py_truediv a b
  | op_pow, [a; b] => py_pow a b
  | op_mod, [a; b] => py_mod a b
  | op_neg, [a] => py_neg a
  | op_pos, [a] => py_pos a
  | math_sqrt, _ => math_real PrimFloat.sqrt args
  | math_sin, _ => math_real c_sin args
  | math_cos, _ => math_real c_cos args
  | math_tan, _ => math_real c_tan args
  | math_log, _ => math_log_impl args
  | math_log10, _ => math_log10_impl args
  | builtin_abs, _ => py_abs args
  | builtin_round, _ => py_round args
  | _, _ => wrong_arity
  end.

(** [str(node.value)] of a constant [_eval] refuses. *)
Definition constant_str (c : constant) : string :=
  match c with
  | CNone => "None"
  | CStr s => s
  | CBytes s => "b'" +:+ s +:+ "'"
  | CEllipsis => "Ellipsis"
  | CComplex re im => complex_str (re, im)
  | _ => ""
  end.

Fixpoint _eval (node : node) : result value :=
  match node with
  | Expression body => _eval body
  | Constant value =>
      match Num_n value with
      | Some n => Ok n
      | None =>
          match int_or_float value with
          | Some v => Ok v
          | None =>
              raise ValueError ("Unsupported constant: " +:+ constant_str value)
          end
      end
  | BinOp l o r =>
      left ← _eval l;
      right ← _eval r;
      let op_type := BinaryOp o in
      match _ALLOWED_OPERATORS !! op_type with
      | Some f => call f [left; right]
      | None =>
          raise ValueError
            ("Unsupported binary operator: " +:+ op_type_str op_type)
      end
  | UnaryOp o e =>
      operand ← _eval e;
      let op_type := UnaryOperator o in
      match _ALLOWED_OPERATORS !! op_type with
      | Some f => call f [operand]
      | None =>
          raise ValueError
            ("Unsupported unary operator: " +:+ op_type_str op_type)
      end
  | Call func args keywords =>
      match func with
      | Name func_name =>
          match _ALLOWED_FUNCTIONS !! func_name with
          | Some f => args ← mapM _eval args; call f args
          | None => raise ValueError "Unsupported function call"
          end
      | _ => raise ValueError "Unsupported function call"
      end
  | Name id =>
      if String.eqb id "pi" then Ok (VFloat math_pi)
      else if String.eqb id "e" then Ok (VFloat math_e)
      else raise ValueError ("Unsupported identifier: " +:+ id)
  | Expr value => _eval value
  | Other cls =>
      raise ValueError ("Unsupported expression: <class 'ast." +:+ cls +:+ "'>")
  end.

(** [safe_eval_expr], with the parser it calls as a parameter: whatever
    [ast.parse] or [_eval] raises comes out as a ValueError. *)
Definition safe_eval_expr_with (parse : string -> result node) (expr : string)
  : result value :=
  match parsed ← parse expr; _eval parsed with
  | Ok v => Ok v
  | Raise e => raise ValueError ("Invalid expression: " +:+ exn_msg e)
  end.

End Evaluator.

(** ** [ast.parse(expr, mode='eval')] on arithmetic expressions

    A model of CPython's tokenizer and expression grammar for the fragment the
    calculator is about, written on one line: numeric literals in all of
    Python's notations, names, [True] / [False] / [None], the operators
    [+ - * / // % @ ** << >> & | ^ ~], parentheses, calls with positional and
    keyword arguments, and a trailing comment.  Where CPython raises
    SyntaxError inside the fragment, so does the model: also for a line that
    is indented and for brackets nested more than 200 deep.

    The tokenizer knows every operator and delimiter of Python.  The parser
    answers [unmodelled], an exception of the class [NotModelled], when a token
    is a keyword or an operator outside the fragment (comparisons, brackets,
    attribute access, [lambda], ...) and where a tuple would begin; the
    tokenizer does at a string literal, a backslash, an exclamation mark, a
    newline and a character that is not ASCII.  No property below is about
    such an input: a failure of the model is a failure of [ast.parse] only
    when its class is SyntaxError. *)

Inductive token :=
| NUMBER (c : constant)
| NAME (s : string)
| OP (s : string).

Definition syntax_error {A} (msg : string) : result A :=
  raise SyntaxError (msg +:+ " (<unknown>, line 1)").

Definition unmodelled {A} : result A :=
  raise NotModelled "construct outside the modelled grammar".

Definition code (c : ascii) : N := N_of_ascii c.

Definition is_digit (c : ascii) : bool := (48 <=? code c)%N && (code c <=? 57)%N.
Definition is_bindigit (c : ascii) : bool := (48 <=? code c)%N && (code c <=? 49)%N.
Definition is_octdigit (c : ascii) : bool := (48 <=? code c)%N && (code c <=? 55)%N.
Definition is_hexdigit (c : ascii) : bool :=
  is_digit c || ((65 <=? code c)%N && (code c <=? 70)%N)
  || ((97 <=? code c)%N && (code c <=? 102)%N).
Definition is_letter (c : ascii) : bool :=
  ((65 <=? code c)%N && (code c <=? 90)%N)
  || ((97 <=? code c)%N && (code c <=? 122)%N).
Definition is_name_start (c : ascii) : bool := is_letter c || (code c =? 95)%N.
Definition is_name_char (c : ascii) : bool := is_name_start c || is_digit c.
(** space, tab and form feed separate tokens *)
Definition is_blank (c : ascii) : bool :=
  (code c =? 32)%N || (code c =? 9)%N || (code c =? 12)%N.

Definition digit_val (c : ascii) : Z :=
  let n := Z.of_N (code c) in
  if is_digit c then n - 48
  else if (97 <=? code c)%N then n - 87
  else n - 55.

Definition digits_value (base : Z) (ds : list ascii) : Z :=
  fold_left (fun acc d => acc * base + digit_val d) ds 0.

(** The digits that follow a first digit: [(["_"] digit)*]. *)
Fixpoint more_digits (p : ascii -> bool) (cs : list ascii)
  : list ascii * list ascii :=
  match cs with
  | c :: cs' =>
      if p c then let '(ds, r) := more_digits p cs' in (c :: ds, r)
      else if (code c =? 95)%N then
        match cs' with
        | d :: _ => if p d then more_digits p cs' else ([], cs)
        | [] => ([], cs)
        end
      else ([], cs)
  | [] => ([], [])
  end.

(** [digit (["_"] digit)*] *)
Definition digitpart (p : ascii -> bool) (cs : list ascii)
  : option (list ascii * list ascii) :=
  match cs with
  | c :: cs' => if p c then let '(ds, r) := more_digits p cs' in Some (c :: ds, r)
                else None
  | [] => None
  end.

(** The float nearest to [digits * 10^e10]. *)
Definition decimal_float (ds : list ascii) (e10 : Z) : float :=
  let d := digits_value 10 ds in
  if 0 <=? e10 then Z2float (d * 10 ^ e10) 0
  else ratio_to_float d (10 ^ (- e10)).

(** [lookahead]: the characters of [w] come next. *)
Fixpoint lookahead (w : list ascii) (cs : list ascii) : bool :=
  match w, cs with
  | [], _ => true
  | x :: w', c :: cs' => (code c =? code x)%N && lookahead w' cs'
  | _ :: _, [] => false
  end.

(** What may follow a numeric literal at once: the start of one of the
    keywords [and], [else], [for], [if], [in], [is], [or] and [not]. *)
Definition keyword_follows (rest : list ascii) : bool :=
  match rest with
  | c :: r =>
      if (code c =? 97)%N then lookahead ["n"; "d"]%char r
      else if (code c =? 101)%N then lookahead ["l"; "s"; "e"]%char r
      else if (code c =? 102)%N then lookahead ["o"; "r"]%char r
      else if (code c =? 105)%N then
        match r with
        | c2 :: _ => (code c2 =? 102)%N || (code c2 =? 110)%N || (code c2 =? 115)%N
        | [] => false
        end
      else if (code c =? 111)%N then lookahead ["r"]%char r
      else if (code c =? 110)%N then lookahead ["o"; "t"]%char r
      else false
  | [] => false
  end.

(** [verify_end_of_number]: a numeric literal ends where no name character
    follows, the keywords above apart. *)
Definition end_of_number (c : constant) (rest : list ascii)
  : result (token * list ascii) :=
  match rest with
  | x :: _ =>
      if is_name_char x && negb (keyword_follows rest)
      then syntax_error "invalid decimal literal"
      else Ok (NUMBER c, rest)
  | [] => Ok (NUMBER c, rest)
  end.

(** [0x], [0o] and [0b] literals: [(["_"] digit)+] after the prefix. *)
Definition lex_radix (p : ascii -> bool) (base : Z) (cs : list ascii)
  : result (token * list ascii) :=
  let cs1 := match cs with
             | c :: r => if (code c =? 95)%N then r else cs
             | [] => cs
             end in
  match digitpart p cs1 with
  | Some (ds, rest) => end_of_number (CInt (digits_value base ds)) rest
  | None => syntax_error "invalid number literal"
  end.

Definition lex_fraction (cs : list ascii) : list ascii * bool * list ascii :=
  match cs with
  | c :: r =>
      if (code c =? 46)%N then
        match digitpart is_digit r with
        | Some (fd, r') => (fd, true, r')
        | None => ([], true, r)
        end
      else ([], false, cs)
  | [] => ([], false, cs)
  end.

Definition lex_exponent (cs : list ascii) : Z * bool * list ascii :=
  match cs with
  | c :: r =>
      if (code c =? 101)%N || (code c =? 69)%N then
        let '(sg, r') :=
          match r with
          | s :: x => if (code s =? 43)%N then (1, x)
                      else if (code s =? 45)%N then (-1, x) else (1, r)
          | [] => (1, r)
          end in
        match digitpart is_digit r' with
        | Some (ed, r'') => (sg * digits_value 10 ed, true, r'')
        | None => (0, false, cs)
        end
      else (0, false, cs)
  | [] => (0, false, cs)
  end.

(** A decimal integer other than zero written with a leading zero. *)
Definition leading_zero (ip : list ascii) : bool :=
  match ip with
  | z :: _ :: _ => (code z =? 48)%N && negb (digits_value 10 ip =? 0)
  | _ => false
  end.

Section Numbers.
Context `{Libm}.

(** Decimal integers, floats and imaginary literals. *)
Definition lex_decimal (cs : list ascii) : result (token * list ascii) :=
  let '(ip, r1) := default ([], cs) (digitpart is_digit cs) in
  let '(fp, has_point, r2) := lex_fraction r1 in
  let '(ex, has_exp, r3) := lex_exponent r2 in
  let f := decimal_float (ip ++ fp) (ex - Z.of_nat (length fp)) in
  let imaginary := match r3 with
                   | c :: _ => (code c =? 106)%N || (code c =? 74)%N
                   | [] => false
                   end in
  if imaginary then end_of_number (CComplex 0 f) (tail r3)
  else if has_point || has_exp then end_of_number (CFloat f) r3
  else if leading_zero ip
  then syntax_error "leading zeros in decimal integer literals are not permitted"
  else if too_many_digits (length ip)
  then syntax_error "Exceeds the limit for integer string conversion"
  else end_of_number (CInt (digits_value 10 ip)) r3.

Definition lex_number (cs : list ascii) : result (token * list ascii) :=
  match cs with
  | z :: x :: r =>
      if (code z =? 48)%N then
        if (code x =? 120)%N || (code x =? 88)%N then lex_radix is_hexdigit 16 r
        else if (code x =? 111)%N || (code x =? 79)%N then lex_radix is_octdigit 8 r
        else if (code x =? 98)%N || (code x =? 66)%N then lex_radix is_bindigit 2 r
        else lex_decimal cs
      else lex_decimal cs
  | _ => lex_decimal cs
  end.

End Numbers.

Fixpoint span (p : ascii -> bool) (cs : list ascii) : list ascii * list ascii :=
  match cs with
  | c :: cs' => if p c then let '(a, b) := span p cs' in (c :: a, b) else ([], cs)
  | [] => ([], [])
  end.

(** The characters operators and delimiters are made of:
    [% & ( ) * + , - . / : ; < = > @ [ ] ^ { | } ~]. *)
Definition op_chars : list N :=
  [37; 38; 40; 41; 42; 43; 44; 45; 46; 47; 58; 59; 60; 61; 62; 64; 91; 93; 94;
   123; 124; 125; 126]%N.

Definition is_op_char (c : ascii) : bool := existsb (N.eqb (code c)) op_chars.

(** The operators of two characters: an operator character and [=], a
    doubled [* / < >], [->] and [<>]. *)
Definition two_chars (a b : ascii) : bool :=
  ((code b =? 61)%N
   && existsb (N.eqb (code a))
        [37; 38; 42; 43; 45; 47; 58; 60; 61; 62; 64; 94; 124]%N)
  || ((code b =? code a)%N && existsb (N.eqb (code a)) [42; 47; 60; 62]%N)
  || ((code b =? 62)%N && ((code a =? 45)%N || (code a =? 60)%N)).

(** The operators of three characters: a doubled [* / < >] and [=], and the
    ellipsis. *)
Definition three_chars (a b c : ascii) : bool :=
  ((code c =? 61)%N && (code b =? code a)%N
   && existsb (N.eqb (code a)) [42; 47; 60; 62]%N)
  || ((code a =? 46)%N && (code b =? 46)%N && (code c =? 46)%N).

(** Operators and delimiters, longest match first. *)
Definition lex_op (cs : list ascii) : option (string * list ascii) :=
  match cs with
  | a :: rest =>
      if is_op_char a then
        match rest with
        | b :: c :: r =>
            if three_chars a b c then Some (string_of_list_ascii [a; b; c], r)
            else if two_chars a b
                 then Some (string_of_list_ascii [a; b], c :: r)
                 else Some (string_of_list_ascii [a], rest)
        | [b] =>
            if two_chars a b then Some (string_of_list_ascii [a; b], [])
            else Some (string_of_list_ascii [a], rest)
        | [] => Some (string_of_list_ascii [a], [])
        end
      else None
  | [] => None
  end.

(** Characters that start no Python token. *)
Definition illegal_char (c : ascii) : bool :=
  (code c =? 36)%N || (code c =? 63)%N || (code c =? 96)%N.

(** The nesting of brackets that the tokenizer keeps track of, [MAXLEVEL]
    deep at most: an opening bracket is pushed, a closing one must match the
    last one that is open. *)
Definition MAXLEVEL : nat := 200.

Definition closes (opening closing : string) : bool :=
  (String.eqb opening "(" && String.eqb closing ")")
  || (String.eqb opening "[" && String.eqb closing "]")
  || (String.eqb opening "{" && String.eqb closing "}").

Definition nest (parenstack : list string) (o : string)
  : result (list string) :=
  if String.eqb o "(" || String.eqb o "[" || String.eqb o "{" then
    if (MAXLEVEL <=? length parenstack)%nat
    then syntax_error "too many nested parentheses"
    else Ok (o :: parenstack)
  else if String.eqb o ")" || String.eqb o "]" || String.eqb o "}" then
    match parenstack with
    | [] => syntax_error ("unmatched '" +:+ o +:+ "'")
    | opening :: below =>
        if closes opening o then Ok below
        else syntax_error ("closing parenthesis '" +:+ o
                           +:+ "' does not match opening parenthesis '"
                           +:+ opening +:+ "'")
    end
  else Ok parenstack.

Section Tokenizer.
Context `{Libm}.

Fixpoint tokenize_from (fuel : nat) (parenstack : list string)
    (cs : list ascii) : result (list token) :=
  match fuel with
  | O => raise RecursionError "tokenizer out of fuel"
  | S fuel' =>
      match cs with
      | [] => Ok []
      | c :: rest =>
          if is_blank c then tokenize_from fuel' parenstack rest
          else if (code c =? 35)%N then
            (if existsb (fun x => (code x =? 10)%N || (code x =? 13)%N) rest
             then unmodelled else Ok [])
          else if is_digit c
                  || ((code c =? 46)%N && match rest with
                                          | d :: _ => is_digit d
                                          | [] => false
                                          end)
          then '(t, r) ← lex_number cs;
               ts ← tokenize_from fuel' parenstack r; mret (t :: ts)
          else if is_name_start c then
            let '(nm, r) := span is_name_char cs in
            ts ← tokenize_from fuel' parenstack r;
            mret (NAME (string_of_list_ascii nm) :: ts)
          else
            match lex_op cs with
            | Some (o, r) =>
                parenstack' ← nest parenstack o;
                ts ← tokenize_from fuel' parenstack' r; mret (OP o :: ts)
            | None => if illegal_char c then syntax_error "invalid syntax"
                      else unmodelled
            end
      end
  end.

(** The column at which a line starts: a space is one column, a tab goes to
    the next multiple of 8, a form feed back to column 0. *)
Fixpoint indentation (col : nat) (cs : list ascii) : nat * list ascii :=
  match cs with
  | c :: rest =>
      if (code c =? 32)%N then indentation (S col) rest
      else if (code c =? 9)%N then indentation ((col / 8 + 1) * 8) rest
      else if (code c =? 12)%N then indentation 0 rest
      else (col, cs)
  | [] => (col, [])
  end.

(** A line that starts beyond column 0 is indented, which [eval] mode
    refuses, unless it holds nothing or a comment only.  The model does not
    follow a line that is continued, or that ends or has a control character
    where the indentation ends. *)
Definition tokenize (s : string) : result (list token) :=
  let '(col, cs) := indentation 0 (list_ascii_of_string s) in
  match cs with
  | c :: _ =>
      if (code c =? 92)%N || (code c <=? 31)%N
      then unmodelled
      else if (0 <? col)%nat && negb (code c =? 35)%N
      then syntax_error "unexpected indent"
      else tokenize_from (S (length cs)) [] cs
  | [] => Ok []
  end.

End Tokenizer.

(** *** The expression grammar *)

Definition keywords : list string :=
  ["and"; "as"; "assert"; "async"; "await"; "break"; "class"; "continue";
   "def"; "del"; "elif"; "else"; "except"; "finally"; "for"; "from";
   "global"; "if"; "import"; "in"; "is"; "lambda"; "nonlocal"; "not"; "or";
   "pass"; "raise"; "return"; "try"; "while"; "with"; "yield"].

Definition is_keyword (s : string) : bool := existsb (String.eqb s) keywords.

Definition is_name_constant (s : string) : bool :=
  String.eqb s "True" || String.eqb s "False" || String.eqb s "None".

(** Precedence levels of the left-associative binary operators, lowest
    first: [|], [^], [&], shifts, sums, terms. *)
Definition binop_of (level : nat) (s : string) : option operator :=
  match level with
  | 0%nat => if String.eqb s "|" then Some BitOr else None
  | 1%nat => if String.eqb s "^" then Some BitXor else None
  | 2%nat => if String.eqb s "&" then Some BitAnd else None
  | 3%nat => if String.eqb s "<<" then Some LShift
             else if String.eqb s ">>" then Some RShift else None
  | 4%nat => if String.eqb s "+" then Some Add
             else if String.eqb s "-" then Some Sub else None
  | 5%nat => if String.eqb s "*" then Some Mult
             else if String.eqb s "/" then Some Div
             else if String.eqb s "//" then Some FloorDiv
             else if String.eqb s "%" then Some Mod
             else if String.eqb s "@" then Some MatMult else None
  | _ => None
  end.

Definition unaryop_of (s : string) : option unaryop :=
  if String.eqb s "+" then Some UAdd
  else if String.eqb s "-" then Some USub
  else if String.eqb s "~" then Some Invert
  else None.

Definition is_op (s : string) (t : token) : bool :=
  match t with OP o => String.eqb o s | _ => false end.

Definition out_of_fuel {A} : result A :=
  raise RecursionError "maximum recursion depth exceeded".

(** Recursive descent by precedence level: levels 0 to 5 are the binary
    operators of [binop_of], 6 is [factor] (unary [+ - ~]), 7 is [power]
    (right-associative, its exponent a [factor]), 8 is [primary] (an atom and
    its call trailers). *)
Fixpoint parse_level (fuel : nat) (level : nat) (ts : list token)
  : result (node * list token) :=
  match fuel with
  | O => out_of_fuel
  | S f =>
      if (level <? 6)%nat then
        '(lhs, r) ← parse_level f (S level) ts;
        parse_tail f level lhs r
      else if (level =? 6)%nat then
        match ts with
        | OP s :: r =>
            match unaryop_of s with
            | Some u => '(e, r') ← parse_level f 6 r; mret (UnaryOp u e, r')
            | None => parse_level f 7 ts
            end
        | _ => parse_level f 7 ts
        end
      else if (level =? 7)%nat then
        '(base, r) ← parse_level f 8 ts;
        match r with
        | OP s :: r' =>
            if String.eqb s "**" then
              '(e, r'') ← parse_level f 6 r'; mret (BinOp base Pow e, r'')
            else Ok (base, r)
        | _ => Ok (base, r)
        end
      else
        '(a, r) ← parse_atom f ts;
        parse_trailers f a r
  end
with parse_tail (fuel : nat) (level : nat) (lhs : node) (ts : list token)
  : result (node * list token) :=
  match fuel with
  | O => out_of_fuel
  | S f =>
      match ts with
      | OP s :: r =>
          match binop_of level s with
          | Some o =>
              '(rhs, r') ← parse_level f (S level) r;
              parse_tail f level (BinOp lhs o rhs) r'
          | None => Ok (lhs, ts)
          end
      | _ => Ok (lhs, ts)
      end
  end
with parse_atom (fuel : nat) (ts : list token) : result (node * list token) :=
  match fuel with
  | O => out_of_fuel
  | S f =>
      match ts with
      | NUMBER c :: r => Ok (Constant c, r)
      | NAME s :: r =>
          if String.eqb s "True" then Ok (Constant (CBool true), r)
          else if String.eqb s "False" then Ok (Constant (CBool false), r)
          else if String.eqb s "None" then Ok (Constant CNone, r)
          else Ok (Name s, r)
      | OP s :: r =>
          if String.eqb s "(" then
            match r with
            | [] => syntax_error "'(' was never closed"
            | t :: _ =>
                if is_op ")" t then unmodelled
                else
                  '(e, r') ← parse_level f 0 r;
                  match r' with
                  | [] => syntax_error "'(' was never closed"
                  | t' :: r'' =>
                      if is_op ")" t' then Ok (e, r'')
                      else if is_op "," t' then unmodelled
                      else syntax_error "invalid syntax"
                  end
            end
          else if String.eqb s "*" || String.eqb s "**" then unmodelled
          else syntax_error "invalid syntax"
      | [] => syntax_error "invalid syntax"
      end
  end
with parse_trailers (fuel : nat) (a : node) (ts : list token)
  : result (node * list token) :=
  match fuel with
  | O => out_of_fuel
  | S f =>
      match ts with
      | OP s :: r =>
          if String.eqb s "(" then
            '(args, kws, r') ← parse_args f [] [] r;
            parse_trailers f (Call a args kws) r'
          else Ok (a, ts)
      | _ => Ok (a, ts)
      end
  end
with parse_args (fuel : nat) (args : list node)
       (kws : list (option string * node)) (ts : list token)
  : result (list node * list (option string * node) * list token) :=
  match fuel with
  | O => out_of_fuel
  | S f =>
      let after (args : list node) (kws : list (option string * node))
                (r : list token) :=
        match r with
        | [] => syntax_error "'(' was never closed"
        | t :: r' =>
            if is_op "," t then parse_args f args kws r'
            else if is_op ")" t then Ok (args, kws, r')
            else syntax_error "invalid syntax"
        end in
      match ts with
      | [] => syntax_error "'(' was never closed"
      | OP s :: r =>
          if String.eqb s ")" then Ok (args, kws, r)
          else
            '(a, r') ← parse_level f 0 ts;
            if bool_decide (kws = [])
            then after (args ++ [a]) kws r'
            else syntax_error "positional argument follows keyword argument"
      | NAME k :: t :: r =>
          if is_op "=" t then
            if is_name_constant k then syntax_error "cannot assign to constant"
            else
              '(v, r') ← parse_level f 0 r;
              after args (kws ++ [(Some k, v)]) r'
          else
            '(a, r') ← parse_level f 0 ts;
            if bool_decide (kws = [])
            then after (args ++ [a]) kws r'
            else syntax_error "positional argument follows keyword argument"
      | _ =>
          '(a, r') ← parse_level f 0 ts;
          if bool_decide (kws = [])
          then after (args ++ [a]) kws r'
          else syntax_error "positional argument follows keyword argument"
      end
  end.

(** The operators and delimiters of the fragment. *)
Definition fragment_ops : list string :=
  ["+"; "-"; "*"; "/"; "//"; "%"; "@"; "**"; "<<"; ">>"; "&"; "|"; "^"; "~";
   "("; ")"; ","; "="].

(** A keyword, or an operator the fragment does not have. *)
Definition outside_fragment (t : token) : bool :=
  match t with
  | NUMBER _ => false
  | NAME s => is_keyword s
  | OP s => negb (existsb (String.eqb s) fragment_ops)
  end.

(** [eval_input]: one expression and nothing after it. *)
Definition parse_tokens (ts : list token) : result node :=
  if existsb outside_fragment ts then unmodelled
  else
    '(e, r) ← parse_level (16 * S (length ts)) 0 ts;
    match r with
    | [] => Ok (Expression e)
    | t :: _ => if is_op "," t then unmodelled else syntax_error "invalid syntax"
    end.

Definition ast_parse `{Libm} (expr : string) : result node :=
  ts ← tokenize expr; parse_tokens ts.

(** [safe_eval_expr] itself. *)
Definition safe_eval_expr `{Libm} (expr : string) : result value :=
  safe_eval_expr_with ast_parse expr.

(** ** What [ast.parse] writes

    The call of [ast.parse] is the one place where [safe_eval_expr] can
    write: where one of the keywords follows a numeric literal at once, the
    tokenizer of CPython 3.11 lexes the literal and warns
    ([verify_end_of_number]).  The warning is a SyntaxWarning without a
    registry, which the default filters show every time: the [warnings]
    module writes one line to the standard error stream.  (CPython 3.8 to
    3.10 do not warn; 3.12 and 3.13 warn in the same way, and once more about
    the deprecated [ast.Num], which is not modelled.) *)



Section Warnings.
Context `{Libm}.









End Warnings.

(** ** Python strings

    Strings are sequences of characters; the model indexes them by byte, which
    is the same for the ASCII text a calculator buffer holds. *)

(** [s[:n]] and [s[n:]] *)
Fixpoint str_take (n : nat) (s : string) : string :=
  match n, s with
  | S n', String c s' => String c (str_take n' s')
  | _, _ => ""
  end.

Fixpoint str_drop (n : nat) (s : string) : string :=
  match n, s with
  | S n', String _ s' => str_drop n' s'
  | _, _ => s
  end.

(** White space as [str.strip] sees it (ASCII). *)
Definition is_whitespace (c : ascii) : bool :=
  ((9 <=? code c)%N && (code c <=? 13)%N)
  || ((28 <=? code c)%N && (code c <=? 32)%N).

Fixpoint lstrip (s : string) : string :=
  match s with
  | String c s' => if is_whitespace c then lstrip s' else s
  | EmptyString => s
  end.

(** [s.strip()] *)
Definition strip (s : string) : string :=
  String.rev (lstrip (String.rev (lstrip s))).

(** [s.isdigit()] *)
Definition isdigit (s : string) : bool :=
  match s with
  | EmptyString => false
  | _ => forallb is_digit (list_ascii_of_string s)
  end.

(** [s.split(sep, 1)] when [sep in s]: the text before and after the first
    occurrence of [sep]; [None] when [sep] does not occur. *)
Fixpoint split_once (sep s : string) : option (string * string) :=
  if String.prefix sep s then Some ("", str_drop (String.length sep) s)
  else
    match s with
    | String c s' =>
        match split_once sep s' with
        | Some (a, b) => Some (String c a, b)
        | None => None
        end
    | EmptyString => None
    end.

(** ** [str] of a number *)

Section Formatting.
Context `{Libm}.

(** [repr] of a float: a whole number below 1e16 prints its digits and [.0];
    every other float is left to the platform. *)
Definition str_float (f : float) : string :=
  match Prim2SF f with
  | S754_zero s => if s then "-0.0" else "0.0"
  | _ =>
      match float_integral f with
      | Some n => if Z.abs n <? 10 ^ 16 then pretty n +:+ ".0" else float_repr f
      | None => float_repr f
      end
  end.

(** [str] of an int: refused when it has too many digits. *)
Definition str_int (n : Z) : result string :=
  if too_many_digits (String.length (pretty (Z.abs n)))
  then raise ValueError "Exceeds the limit for integer string conversion"
  else Ok (pretty n).

Definition str (v : value) : result string :=
  match v with
  | VInt n => str_int n
  | VBool b => Ok (if b then "True" else "False")
  | VFloat f => Ok (str_float f)
  | VComplex re im => Ok (complex_str (re, im))
  end.

End Formatting.

(** ** The calculator session *)

(** The state of a [Calculator]: the entry's text ([display_var]) and
    insertion cursor, and the attributes the methods read and write.
    [history_list] is the content of the listbox, [clipboard] the clipboard. *)
Record Calculator := mkCalculator {
  display_var : string;
  cursor : nat;
  result_shown : bool;
  history : list string;
  last_answer : string;
  history_list : list string;
  clipboard : string
}.

(** [__init__] *)
Definition init : Calculator := mkCalculator "" 0 false [] "" [] "".

(** [display_var.set(txt)]: the entry keeps its cursor inside the text. *)
Definition set_display (txt : string) (c : Calculator) : Calculator :=
  mkCalculator txt (Nat.min (cursor c) (String.length txt)) (result_shown c)
    (history c) (last_answer c) (history_list c) (clipboard c).

(** [entry.icursor(pos)] *)
Definition icursor (pos : nat) (c : Calculator) : Calculator :=
  mkCalculator (display_var c) (Nat.min pos (String.length (display_var c)))
    (result_shown c) (history c) (last_answer c) (history_list c) (clipboard c).

Definition set_result_shown (b : bool) (c : Calculator) : Calculator :=
  mkCalculator (display_var c) (cursor c) b (history c) (last_answer c)
    (history_list c) (clipboard c).

Definition set_last_answer (a : string) (c : Calculator) : Calculator :=
  mkCalculator (display_var c) (cursor c) (result_shown c) (history c) a
    (history_list c) (clipboard c).

Definition set_history (h : list string) (c : Calculator) : Calculator :=
  mkCalculator (display_var c) (cursor c) (result_shown c) h (last_answer c)
    (history_list c) (clipboard c).

Definition set_history_list (l : list string) (c : Calculator) : Calculator :=
  mkCalculator (display_var c) (cursor c) (result_shown c) (history c)
    (last_answer c) l (clipboard c).

Definition set_clipboard (s : string) (c : Calculator) : Calculator :=
  mkCalculator (display_var c) (cursor c) (result_shown c) (history c)
    (last_answer c) (history_list c) s.

(** [l[-n:]] *)
Definition last_n {A} (n : nat) (l : list A) : list A :=
  drop (length l - n) l.

Section Session.
Context `{Libm}.

(** [ast.parse], which the session reaches through [safe_eval_expr]. *)
Variable parse : string -> result node.

Definition insert_text (txt : string) (c : Calculator) : Calculator :=
  if result_shown c
     && (isdigit txt || String.eqb txt "(" || String.eqb txt ".")
  then set_result_shown false (set_display txt c)
  else
    let pos := cursor c in
    let cur := display_var c in
    let new := str_take pos cur +:+ txt +:+ str_drop pos cur in
    icursor (pos + String.length txt) (set_display new c).

Definition clear (c : Calculator) : Calculator :=
  set_result_shown false (set_display "" c).

Definition backspace (c : Calculator) : Calculator :=
  let s := display_var c in
  let pos := cursor c in
  if (0 <? pos)%nat then
    let new := str_take (pos - 1) s +:+ str_drop pos s in
    icursor (pos - 1) (set_display new c)
  else c.

Definition toggle_sign (c : Calculator) : Calculator :=
  let s := display_var c in
  if String.eqb s "" then c
  else
    match val ← safe_eval_expr_with parse s; neg ← py_neg val; str neg with
    | Ok text => set_result_shown true (set_display text c)
    | Raise _ => insert_text "(-" c
    end.

Definition insert_last_answer (c : Calculator) : Calculator :=
  if String.eqb (last_answer c) "" then c
  else insert_text (last_answer c) c.

Definition copy_result (c : Calculator) : Calculator :=
  set_clipboard (last_answer c) c.

Definition _add_history (expr result : string) (c : Calculator) : Calculator :=
  let entry := expr +:+ " = " +:+ result in
  if bool_decide (last (history c) = Some entry) then c
  else
    let h := history c ++ [entry] in
    let h := if (50 <? length h)%nat then tail h else h in
    set_history_list (reverse (last_n 10 h)) (set_history h c).

(** The result as [evaluate] formats it: a float that is a whole number
    becomes an int. *)
Definition format_result (result : value) : value :=
  match result with
  | VFloat f =>
      match float_integral f with
      | Some n => VInt n
      | None => result
      end
  | _ => result
  end.

(** The text [evaluate] shows for [expr], where nothing raises. *)
Definition result_text (expr : string) : result string :=
  result ← safe_eval_expr_with parse expr; str (format_result result).

Definition evaluate (c : Calculator) : Calculator :=
  let expr := strip (display_var c) in
  if String.eqb expr "" then c
  else
    match result_text expr with
    | Ok text =>
        let c := set_display text c in
        let c := set_result_shown true c in
        let c := set_last_answer text c in
        _add_history expr text c
    | Raise _ => set_result_shown true (set_display "Error" c)
    end.

Definition on_button_click (key : string) (c : Calculator) : Calculator :=
  if String.eqb key "C" then clear c
  else if String.eqb key "⌫" then backspace c
  else if String.eqb key "=" then evaluate c
  else if String.eqb key "±" then toggle_sign c
  else insert_text key c.

(** [sel] is the listbox's [curselection()]. *)
Definition on_history_select (sel : list nat) (c : Calculator) : Calculator :=
  match sel with
  | [] => c
  | idx :: _ =>
      let text := default "" (history_list c !! idx) in
      match split_once " = " text with
      | Some (expr, _) => set_display expr c
      | None => c
      end
  end.

(** What can happen to a session: the buttons, the key bindings, a click in
    the history list, and the user editing the entry widget by hand. *)
Inductive event :=
| ButtonClick (key : string)
| InsertText (txt : string)
| KeyReturn
| KeyBackSpace
| KeyEscape
| AnsButton
| CopyButton
| ListboxSelect (sel : list nat)
| EntryEdit (text : string) (pos : nat).

Definition handle (ev : event) (c : Calculator) : Calculator :=
  match ev with
  | ButtonClick key => on_button_click key c
  | InsertText txt => insert_text txt c
  | KeyReturn => evaluate c
  | KeyBackSpace => backspace c
  | KeyEscape => clear c
  | AnsButton => insert_last_answer c
  | CopyButton => copy_result c
  | ListboxSelect sel => on_history_select sel c
  | EntryEdit text pos => icursor pos (set_display text c)
  end.

End Session.

(** * What the properties are stated with *)

(** ** Induction over expression trees *)

Section node_induction.
Variable P : node -> Prop.
Hypothesis HExpression : forall body, P body -> P (Expression body).
Hypothesis HConstant : forall value, P (Constant value).
Hypothesis HBinOp : forall l op r, P l -> P r -> P (BinOp l op r).
Hypothesis HUnaryOp : forall op e, P e -> P (UnaryOp op e).
Hypothesis HCall : forall func args keywords,
  P func -> Forall P args -> Forall (fun kw => P (snd kw)) keywords ->
  P (Call func args keywords).
Hypothesis HName : forall id, P (Name id).
Hypothesis HExpr : forall value, P value -> P (Expr value).
Hypothesis HOther : forall cls, P (Other cls).

Fixpoint node_ind (n : node) : P n :=
  match n with
  | Expression body => HExpression body (node_ind body)
  | Constant value => HConstant value
  | BinOp l op r => HBinOp l op r (node_ind l) (node_ind r)
  | UnaryOp op e => HUnaryOp op e (node_ind e)
  | Call func args keywords =>
      HCall func args keywords (node_ind func)
        ((fix all (l : list node) : Forall P l :=
            match l with
            | [] => List.Forall_nil P
            | a :: l' => List.Forall_cons P a l' (node_ind a) (all l')
            end) args)
        ((fix all (l : list (option string * node))
            : Forall (fun kw => P (snd kw)) l :=
            match l with
            | [] => List.Forall_nil _
            | kw :: l' => List.Forall_cons _ kw l' (node_ind (snd kw)) (all l')
            end) keywords)
  | Name id => HName id
  | Expr value => HExpr value (node_ind value)
  | Other cls => HOther cls
  end.
End node_induction.

(** ** The whitelist *)

(** The operators, functions and identifiers the specification lists. *)
Definition whitelisted_binops : list operator := [Add; Sub; Mult; Div; Mod; Pow].
Definition whitelisted_unaryops : list unaryop := [UAdd; USub].
Definition whitelisted_functions : list string :=
  ["sqrt"; "sin"; "cos"; "tan"; "log"; "log10"; "abs"; "round"].
Definition whitelisted_names : list string := ["pi"; "e"].

(** A tree all of whose operators, call targets and identifiers are on the
    whitelist, at every node evaluation walks: the operands of an operator and
    the positional arguments of a call. *)
#[local] Unset Elimination Schemes.
Inductive whitelisted : node -> Prop :=
| wl_Expression body : whitelisted body -> whitelisted (Expression body)
| wl_Expr value : whitelisted value -> whitelisted (Expr value)
| wl_Constant value : is_Some (int_or_float value) \/ is_Some (Num_n value) ->
    whitelisted (Constant value)
| wl_BinOp l op r : op ∈ whitelisted_binops -> whitelisted l -> whitelisted r ->
    whitelisted (BinOp l op r)
| wl_UnaryOp op e : op ∈ whitelisted_unaryops -> whitelisted e ->
    whitelisted (UnaryOp op e)
| wl_Call f args keywords : f ∈ whitelisted_functions ->
    Forall whitelisted args -> whitelisted (Call (Name f) args keywords)
| wl_Name id : id ∈ whitelisted_names -> whitelisted (Name id).
#[local] Set Elimination Schemes.

(** ** Positions, zeros and domains *)

(** The positions of a tree that evaluation reaches: the body of the
    [Expression], the operands of an operator, the positional arguments of a
    call. *)
Inductive ectx :=
| Hole
| InExpression (k : ectx)
| InExpr (k : ectx)
| InLeft (k : ectx) (op : operator) (r : node)
| InRight (l : node) (op : operator) (k : ectx)
| InOperand (op : unaryop) (k : ectx)
| InArg (func : node) (before : list node) (k : ectx) (after : list node)
    (keywords : list (option string * node)).

Fixpoint fill (k : ectx) (n : node) : node :=
  match k with
  | Hole => n
  | InExpression k => Expression (fill k n)
  | InExpr k => Expr (fill k n)
  | InLeft k op r => BinOp (fill k n) op r
  | InRight l op k => BinOp l op (fill k n)
  | InOperand op k => UnaryOp op (fill k n)
  | InArg func before k after kws => Call func (before ++ fill k n :: after) kws
  end.

(** A zero of any numeric type. *)
Definition value_is_zero (v : value) : bool :=
  match v with
  | VInt n => n =? 0
  | VBool b => negb b
  | VFloat f => float_is_zero f
  | VComplex re im => complex_is_zero (re, im)
  end.

(** Negative numbers, and numbers that are negative or zero. *)
Definition is_negative (v : value) : bool :=
  match v with
  | VInt n => n <? 0
  | VBool _ => false
  | VFloat f => (f <? 0)%float
  | VComplex _ _ => false
  end.

Definition is_nonpositive (v : value) : bool :=
  match v with
  | VInt n => n <=? 0
  | VBool b => negb b
  | VFloat f => (f <=? 0)%float
  | VComplex _ _ => false
  end.

(** Arguments outside the domain of [sqrt] (negative) and of [log] and
    [log10] (negative or zero). *)
Inductive out_of_domain : string -> value -> Prop :=
| ood_sqrt v : is_negative v = true -> out_of_domain "sqrt" v
| ood_log name v :
    name ∈ ["log"; "log10"] -> is_nonpositive v = true ->
    out_of_domain name v.

Section DomainFailure.
Context `{Libm}.

(** A division or remainder whose right operand evaluates to a zero, and a
    call of [sqrt], [log] or [log10] whose first argument evaluates to a
    number outside the function's domain. *)
Inductive domain_failure : node -> Prop :=
| df_division l op r vl vr :
    op ∈ [Div; Mod] -> _eval l = Ok vl -> _eval r = Ok vr ->
    value_is_zero vr = true -> domain_failure (BinOp l op r)
| df_call name a rest keywords va :
    _eval a = Ok va -> out_of_domain name va ->
    domain_failure (Call (Name name) (a :: rest) keywords).

End DomainFailure.

(** ** Equality of numbers *)

(** [x == y] on ints, bools and floats, which compare by their exact
    values. *)
Definition real_eq (x y : value) : bool :=
  match x, y with
  | VFloat f, VFloat g => (f =? g)%float
  | VFloat f, _ =>
      match int_of y with
      | Some n => bool_decide (float_integral f = Some n)
      | None => false
      end
  | _, VFloat g =>
      match int_of x with
      | Some n => bool_decide (float_integral g = Some n)
      | None => false
      end
  | _, _ =>
      match int_of x, int_of y with
      | Some m, Some n => m =? n
      | _, _ => false
      end
  end.

(** [x == y] on numbers: a complex number equals a real one when its
    imaginary part is zero and the real parts are equal. *)
Definition py_eq (x y : value) : bool :=
  match x, y with
  | VComplex ar ai, VComplex br bi => (ar =? br)%float && (ai =? bi)%float
  | VComplex ar ai, _ => (ai =? 0)%float && real_eq (VFloat ar) y
  | _, VComplex br bi => (bi =? 0)%float && real_eq x (VFloat br)
  | _, _ => real_eq x y
  end.

(** The numbers an arithmetic expression is meant to have for a value. *)
Definition is_int_or_float (v : value) : bool :=
  match v with VInt _ | VFloat _ => true | _ => false end.

(** ** The history *)

(** The history holds at most 50 entries and the listbox shows its last 10,
    newest first. *)
Definition history_inv (c : Calculator) : Prop :=
  (length (history c) <= 50)%nat
  /\ history_list c = reverse (last_n 10 (history c)).

(** Methods that only touch the entry, the flag, the answer or the clipboard
    leave the history and the listbox alone. *)
Definition same_history (c c' : Calculator) : Prop :=
  history c' = history c /\ history_list c' = history_list c.

(** The history after [_add_history] as a function of the history before. *)
Definition add_entry (entry : string) (h : list string) : list string :=
  if bool_decide (last h = Some entry) then h
  else if (50 <? length (h ++ [entry]))%nat then tail (h ++ [entry])
       else h ++ [entry].

Section Reachable.
Context `{Libm}.
Variable parse : string -> result node.

(** The states a session can be in. *)
Inductive reachable : Calculator -> Prop :=
| reachable_init : reachable init
| reachable_handle ev c : reachable c -> reachable (handle parse ev c).

End Reachable.

(** ** Characters and tokens *)

(** Characters past which the model of the tokenizer does not go: those that
    open a comment or a string literal ([#], the two quotes), the backslash,
    the exclamation mark, the control characters that are not blanks, and
    what is not ASCII. *)
Definition unlexed (c : ascii) : bool :=
  (code c =? 35)%N || (code c =? 34)%N || (code c =? 39)%N
  || (code c =? 92)%N || (code c =? 33)%N
  || ((code c <=? 31)%N && negb (is_blank c)) || (127 <=? code c)%N.

(** Characters that tokens and the space between them are made of. *)
Definition inert (c : ascii) : bool := negb (illegal_char c) && negb (unlexed c).

(** An illegal character stands in [cs], and only inert characters before
    it: no comment and no string literal hides it. *)
Fixpoint doomed (cs : list ascii) : bool :=
  match cs with
  | [] => false
  | c :: r => illegal_char c || (negb (unlexed c) && doomed r)
  end.

(** What a lexer consumes: [cs] is [pre ++ r] for an inert [pre]. *)
Definition consumes (cs r : list ascii) : Prop :=
  exists pre, cs = pre ++ r /\ forallb inert pre = true.

(** [rest] does not continue a run of digits. *)
Definition stops (p : ascii -> bool) (rest : list ascii) : Prop :=
  match rest with
  | [] => True
  | c :: _ => p c = false /\ (code c =? 95)%N = false
  end.

(** ** Literals and keywords *)

(** A character a numeric literal can end with: a digit, also one of a
    hexadecimal literal, a point, or the [j] of an imaginary literal. *)
Definition ends_literal (c : ascii) : bool :=
  is_hexdigit c || (code c =? 46)%N || (code c =? 106)%N || (code c =? 74)%N.



(** ** The entry and the records of the session *)

(** The texts that replace a shown result when they are typed:
    [txt.isdigit() or txt == '(' or txt == '.']. *)
Definition starts_afresh (txt : string) : bool :=
  isdigit txt || String.eqb txt "(" || String.eqb txt ".".

(** [insert_text] puts [txt] in at the cursor, and does not replace the
    text of the entry. *)
Definition splices (txt : string) (c : Calculator) : bool :=
  negb (result_shown c && starts_afresh txt).

(** [s[:pos] + txt + s[pos:]] *)
Definition splice (txt : string) (pos : nat) (s : string) : string :=
  str_take pos s +:+ txt +:+ str_drop pos s.

(** [lstrip] on the characters of a string. *)
Fixpoint lstrip_list (l : list ascii) : list ascii :=
  match l with
  | c :: l' => if is_whitespace c then lstrip_list l' else l
  | [] => []
  end.

(** The text has an equals sign. *)
Definition has_equals (s : string) : bool :=
  existsb (fun ch => (code ch =? 61)%N) (list_ascii_of_string s).

(** [entry] records a calculation: a stripped expression that is not empty
    and the text its value is shown as. *)
Definition calculation `{Libm} (parse : string -> result node)
    (entry : string) : Prop :=
  exists expr text,
    entry = expr +:+ " = " +:+ text
    /\ expr <> "" /\ strip expr = expr
    /\ result_text parse expr = Ok text.

(** The last answer is the result of the newest history entry. *)
Definition answer_inv (c : Calculator) : Prop :=
  (history c = [] /\ last_answer c = "")
  \/ exists expr, last (history c) = Some (expr +:+ " = " +:+ last_answer c).

(** * Properties *)

(** ** The error monad *)

Lemma bind_Ok {A B} (m : result A) (f : A -> result B) (b : B) :
  m ≫= f = Ok b -> exists a, m = Ok a /\ f a = Ok b.
Proof. destruct m as [a|e]; simpl; [eauto | discriminate]. Qed.

Lemma bind_Raise {A B} (m : result A) (f : A -> result B) (e : exn) :
  m = Raise e -> m ≫= f = Raise e.
Proof. intros ->. reflexivity. Qed.

Lemma mapM_Ok {A B} (f : A -> result B) (l : list A) (bs : list B) :
  mapM f l = Ok bs -> Forall2 (fun a b => f a = Ok b) l bs.
Proof.
  revert bs. induction l as [|a l IH]; simpl; intros bs Hm.
  - injection Hm as <-. constructor.
  - apply bind_Ok in Hm as (b & Hb & Hm).
    apply bind_Ok in Hm as (bs' & Hbs & Hm).
    injection Hm as <-. constructor; auto.
Qed.

Lemma mapM_Raise {A B} (f : A -> result B) (before : list A) (a : A)
    (after : list A) (e : exn) :
  f a = Raise e -> exists e', mapM f (before ++ a :: after) = Raise e'.
Proof.
  intros Ha. induction before as [|b before IH]; simpl.
  - rewrite Ha. simpl. eauto.
  - destruct (f b) as [vb|eb]; simpl; [|eauto].
    destruct IH as [e' ->]. simpl. eauto.
Qed.

Lemma allowed_operator_binop (o : operator) (f : callable) :
  _ALLOWED_OPERATORS !! BinaryOp o = Some f -> o ∈ whitelisted_binops.
Proof.
  unfold whitelisted_binops.
  destruct o; vm_compute; intros ?; try discriminate; set_solver.
Qed.

Lemma allowed_operator_unaryop (u : unaryop) (f : callable) :
  _ALLOWED_OPERATORS !! UnaryOperator u = Some f -> u ∈ whitelisted_unaryops.
Proof.
  unfold whitelisted_unaryops.
  destruct u; vm_compute; intros ?; try discriminate; set_solver.
Qed.

Lemma allowed_function_dom (name : string) :
  is_Some (_ALLOWED_FUNCTIONS !! name) <-> name ∈ whitelisted_functions.
Proof.
  unfold _ALLOWED_FUNCTIONS, whitelisted_functions.
  rewrite <- elem_of_dom, dom_list_to_map_L. simpl. set_solver.
Qed.

Section Whitelist.
Context `{Libm}.

Lemma _eval_whitelisted (n : node) (v : value) :
  _eval n = Ok v -> whitelisted n.
Proof.
  revert v. induction n as
    [body IH | c | l o r IHl IHr | u e IH | func args kws IHf IHargs _
    | id | e IH | cls] using node_ind; simpl; intros v Hv.
  - constructor; eauto.
  - constructor. destruct (Num_n c); [right; eauto|].
    destruct (int_or_float c); [left; eauto | discriminate].
  - apply bind_Ok in Hv as (vl & Hl & Hv).
    apply bind_Ok in Hv as (vr & Hr & Hv).
    destruct (_ALLOWED_OPERATORS !! BinaryOp o) as [f|] eqn:Hop; [|discriminate].
    constructor; eauto using allowed_operator_binop.
  - apply bind_Ok in Hv as (vo & Ho & Hv).
    destruct (_ALLOWED_OPERATORS !! UnaryOperator u) as [f|] eqn:Hop;
      [|discriminate].
    constructor; eauto using allowed_operator_unaryop.
  - destruct func; try discriminate.
    destruct (_ALLOWED_FUNCTIONS !! id) as [f|] eqn:Hf; [|discriminate].
    apply bind_Ok in Hv as (vs & Hvs & Hv).
    constructor.
    + apply allowed_function_dom. eauto.
    + apply mapM_Ok in Hvs. clear Hv Hf.
      induction Hvs as [|a b args vs Hab _ IHvs]; [constructor|].
      inversion IHargs; subst. constructor; eauto.
  - destruct (String.eqb id "pi") eqn:Hpi.
    { apply String.eqb_eq in Hpi as ->. constructor. set_solver. }
    destruct (String.eqb id "e") eqn:He; [|discriminate].
    apply String.eqb_eq in He as ->. constructor. set_solver.
  - constructor; eauto.
  - discriminate.
Qed.

End Whitelist.

Section Failures.
Context `{Libm}.

(** Whatever goes wrong, [safe_eval_expr] raises a ValueError that quotes the
    original message. *)
Lemma safe_eval_expr_with_Raise parse (s : string) (e : exn) :
  safe_eval_expr_with parse s = Raise e ->
  exists e0, parse s ≫= _eval = Raise e0
    /\ e = Exn ValueError ("Invalid expression: " +:+ exn_msg e0).
Proof.
  unfold safe_eval_expr_with, raise.
  destruct (parse s) as [t|e0]; simpl.
  - destruct (_eval t) as [v|e0]; [discriminate|]. intros [= <-]. eauto.
  - intros [= <-]. eauto.
Qed.

Lemma safe_eval_expr_with_Ok parse (s : string) (v : value) :
  safe_eval_expr_with parse s = Ok v <->
  exists t, parse s = Ok t /\ _eval t = Ok v.
Proof.
  unfold safe_eval_expr_with. split.
  - destruct (parse s) as [t|e]; simpl; [|discriminate].
    destruct (_eval t) eqn:Ht; [|discriminate]. intros [= ->]. eauto.
  - intros (t & -> & Ht). simpl. rewrite Ht. reflexivity.
Qed.

Lemma safe_eval_expr_with_fails parse (s : string) :
  (forall t, parse s = Ok t -> exists e, _eval t = Raise e) ->
  exists msg, safe_eval_expr_with parse s = Raise (Exn ValueError msg).
Proof.
  intros Ht. unfold safe_eval_expr_with, raise.
  destruct (parse s) as [t|e]; simpl; [|eauto].
  destruct (Ht t eq_refl) as [e ->]. eauto.
Qed.

End Failures.

(** ** C1: dispatch through the whitelist only *)

(** C1, as amended.  For every parser and every input: when [safe_eval_expr]
    returns a value, the tree that was evaluated is whitelisted, that is, every
    operator is one of [+ - * / % **] or unary [+ -], every call target one of
    the eight functions and every identifier [pi] or [e], at all operand and
    positional-argument positions; and when it fails, the failure is a
    ValueError, the only kind of failure the evaluator has.  So an operator,
    call or identifier off the whitelist at such a position makes evaluation
    fail, and no unlisted operation is ever run. *)
Theorem whitelist_dispatch `{Libm} (parse : string -> result node) (s : string) :
  match safe_eval_expr_with parse s with
  | Ok _ => exists t, parse s = Ok t /\ whitelisted t
  | Raise e => exn_cls e = ValueError
  end.
Proof.
  destruct (safe_eval_expr_with parse s) as [v|e] eqn:Hs.
  - apply safe_eval_expr_with_Ok in Hs as (t & Hp & Ht).
    eauto using _eval_whitelisted.
  - apply safe_eval_expr_with_Raise in Hs as (e0 & _ & ->). reflexivity.
Qed.

(** C1, the claim as stated fails: the failure of [foo(1)] is a ValueError
    and no SyntaxError, and a call to an unlisted name inside a keyword
    argument does not make evaluation fail. *)
Lemma unknown_function_is_ValueError :
  (forall L : Libm,
     safe_eval_expr "foo(1)"
     = Raise (Exn ValueError "Invalid expression: Unsupported function call"))
  /\ ValueError <> SyntaxError
  /\ (forall L : Libm, safe_eval_expr "abs(1, x=foo(2))" = Ok (VInt 1)).
Proof.
  split; [|split].
  - intros L. vm_compute. reflexivity.
  - discriminate.
  - intros L. vm_compute. reflexivity.
Qed.

(** ** C3: division by zero and arguments outside a function's domain *)

Lemma int_to_float_0 : int_to_float 0 = Ok 0%float.
Proof. reflexivity. Qed.

Lemma is_nan_spec (f : float) :
  PrimFloat.is_nan f = true <-> Prim2SF f = S754_nan.
Proof.
  unfold PrimFloat.is_nan. rewrite FloatAxioms.eqb_spec.
  destruct (Prim2SF f) as [[]|[]| |[] m e]; simpl;
    unfold SFeqb, SFcompare; simpl;
    rewrite ?Z.compare_refl;
    try change (PosDef.Pos.compare_cont Eq m m) with (Pos.compare m m);
    rewrite ?Pos.compare_refl; simpl; split; congruence.
Qed.

(** *** Converting a negative int gives a negative float

    [binary_normalize] rounds the mantissa of an int to 53 bits; the result is
    a valid float of the sign of the int, or the infinity of that sign. *)

Lemma digits2_pos_le (p : positive) : 2 ^ (Z.pos (digits2_pos p) - 1) <= Z.pos p.
Proof.
  induction p as [p IH|p IH|]; simpl digits2_pos.
  - rewrite Pos2Z.inj_succ. replace (Z.succ (Z.pos (digits2_pos p)) - 1)
      with (Z.succ (Z.pos (digits2_pos p) - 1)) by lia.
    rewrite Z.pow_succ_r by lia. lia.
  - rewrite Pos2Z.inj_succ. replace (Z.succ (Z.pos (digits2_pos p)) - 1)
      with (Z.succ (Z.pos (digits2_pos p) - 1)) by lia.
    rewrite Z.pow_succ_r by lia. lia.
  - simpl. lia.
Qed.

Lemma shr_1_m (mrs : shr_record) :
  0 <= shr_m mrs -> shr_m (shr_1 mrs) = shr_m mrs / 2.
Proof.
  destruct mrs as [m r s]. cbn [shr_m]. intros Hm.
  destruct m as [|[p|p|]|p]; cbn [shr_1 shr_m]; try lia.
  - reflexivity.
  - apply Z.div_unique with 1; lia.
  - apply Z.div_unique with 0; lia.
  - reflexivity.
Qed.

Lemma iter_pos_shr_1_m (p : positive) (mrs : shr_record) :
  0 <= shr_m mrs ->
  shr_m (SpecFloat.iter_pos shr_1 p mrs) = shr_m mrs / 2 ^ Z.pos p.
Proof.
  revert mrs. induction p as [p IH|p IH|]; intros mrs Hm; simpl SpecFloat.iter_pos.
  - assert (0 <= shr_m (shr_1 mrs)) as H1
      by (rewrite shr_1_m by lia; apply Z.div_pos; lia).
    assert (0 <= shr_m (SpecFloat.iter_pos shr_1 p (shr_1 mrs))) as H2
      by (rewrite IH by lia; apply Z.div_pos; [lia|apply Z.pow_pos_nonneg; lia]).
    rewrite IH by lia. rewrite IH by lia. rewrite shr_1_m by lia.
    rewrite !Z.div_div by (try apply Z.pow_pos_nonneg; lia).
    f_equal.
    assert (Z.pos p~1 = 1 + Z.pos p + Z.pos p) as -> by lia.
    rewrite !Z.pow_add_r by lia. change (2 ^ 1) with 2. ring.
  - assert (0 <= shr_m (SpecFloat.iter_pos shr_1 p mrs)) as H2
      by (rewrite IH by lia; apply Z.div_pos; [lia|apply Z.pow_pos_nonneg; lia]).
    rewrite IH by lia. rewrite IH by lia.
    rewrite !Z.div_div by (try apply Z.pow_pos_nonneg; lia).
    f_equal.
    assert (Z.pos p~0 = Z.pos p + Z.pos p) as -> by lia.
    rewrite !Z.pow_add_r by lia. ring.
  - rewrite shr_1_m by lia. reflexivity.
Qed.

Lemma shr_record_of_loc_m m l : shr_m (shr_record_of_loc m l) = m.
Proof. destruct l as [|[]]; reflexivity. Qed.

Lemma digits2_pos_lt (p : positive) : Z.pos p < 2 ^ Z.pos (digits2_pos p).
Proof.
  induction p as [p IH|p IH|]; simpl digits2_pos;
    rewrite ?Pos2Z.inj_succ, ?Z.pow_succ_r by lia; lia.
Qed.

(** The number of binary digits is determined by the two powers of 2 that
    enclose the number. *)
Lemma digits2_pos_unique (p : positive) (d : Z) :
  2 ^ (d - 1) <= Z.pos p < 2 ^ d -> Z.pos (digits2_pos p) = d.
Proof.
  intros [Hlo Hhi].
  pose proof (digits2_pos_le p) as Hle. pose proof (digits2_pos_lt p) as Hlt.
  set (d' := Z.pos (digits2_pos p)) in *.
  assert (0 < d) as Hd.
  { destruct (Z.leb_spec d 0) as [Hneg|]; [|lia].
    assert (2 ^ d <= 2 ^ 0) by (apply Z.pow_le_mono_r; lia).
    change (2 ^ 0) with 1 in *. lia. }
  destruct (Z.lt_trichotomy d' d) as [Hc|[Hc|Hc]]; [|exact Hc|].
  - assert (2 ^ d' <= 2 ^ (d - 1)) by (apply Z.pow_le_mono_r; lia). lia.
  - assert (2 ^ d <= 2 ^ (d' - 1)) by (apply Z.pow_le_mono_r; lia). lia.
Qed.

Lemma digits2_pos_div (p : positive) (n : Z) (q : positive) :
  0 <= n -> Z.pos p / 2 ^ n = Z.pos q ->
  Z.pos (digits2_pos q) = Z.pos (digits2_pos p) - n.
Proof.
  intros Hn Hq. apply digits2_pos_unique.
  pose proof (digits2_pos_le p) as Hle. pose proof (digits2_pos_lt p) as Hlt.
  set (d := Z.pos (digits2_pos p)) in *.
  assert (0 < 2 ^ n) as Hpow by (apply Z.pow_pos_nonneg; lia).
  assert (n < d) as Hnd.
  { destruct (Z.ltb_spec n d) as [|Hge]; [assumption|].
    assert (2 ^ d <= 2 ^ n) by (apply Z.pow_le_mono_r; lia).
    rewrite Z.div_small in Hq by lia. discriminate. }
  rewrite <- Hq. split.
  - apply Z.div_le_lower_bound; [lia|].
    rewrite <- Z.pow_add_r by lia. replace (n + (d - n - 1)) with (d - 1) by lia.
    exact Hle.
  - apply Z.div_lt_upper_bound; [lia|].
    rewrite <- Z.pow_add_r by lia. replace (n + (d - n)) with d by lia.
    exact Hlt.
Qed.

Lemma digits2_pos_iter_xO (p k : positive) :
  Z.pos (digits2_pos (Pos.iter xO p k)) = Z.pos (digits2_pos p) + Z.pos k.
Proof.
  revert p. induction k as [|k IH] using Pos.peano_ind; intros p.
  - simpl. lia.
  - rewrite Pos.iter_succ. simpl digits2_pos. rewrite Pos2Z.inj_succ, IH. lia.
Qed.

(** [fexp] moves by at most one when its argument does. *)
Lemma fexp_succ (x : Z) :
  fexp prec emax (x + 1) = fexp prec emax x
  \/ fexp prec emax (x + 1) = fexp prec emax x + 1.
Proof. unfold fexp, emin. change prec with 53. change emax with 1024. lia. Qed.

(** A mantissa shifted to its exponent is canonical. *)
Lemma shr_fexp_canonical (m : positive) (e : Z) (l : location) :
  e <= fexp prec emax (Z.pos (digits2_pos m) + e) ->
  fexp prec emax (Z.pos (digits2_pos m) + e) - e < Z.pos (digits2_pos m) ->
  exists m1 e1 r s,
    shr_fexp prec emax (Z.pos m) e l
    = ({| shr_m := Z.pos m1; shr_r := r; shr_s := s |}, e1)
    /\ fexp prec emax (Z.pos (digits2_pos m1) + e1) = e1.
Proof.
  intros Hle Hlt. unfold shr_fexp, shr. simpl Zdigits2.
  set (d := Z.pos (digits2_pos m)) in *.
  destruct (fexp prec emax (d + e) - e) as [|n|n] eqn:Hn; try lia.
  - exists m, e, (shr_r (shr_record_of_loc (Z.pos m) l)),
      (shr_s (shr_record_of_loc (Z.pos m) l)).
    split; [destruct l as [|[]]; reflexivity|]. fold d. lia.
  - pose proof (iter_pos_shr_1_m n (shr_record_of_loc (Z.pos m) l)) as Hm.
    rewrite shr_record_of_loc_m in Hm. specialize (Hm ltac:(lia)).
    destruct (SpecFloat.iter_pos shr_1 n (shr_record_of_loc (Z.pos m) l)) as [m1 r s].
    cbn [shr_m] in Hm.
    assert (0 < m1) as Hpos.
    { rewrite Hm. apply Z.div_str_pos. split; [apply Z.pow_pos_nonneg; lia|].
      pose proof (digits2_pos_le m) as Hd. fold d in Hd.
      assert (2 ^ Z.pos n <= 2 ^ (d - 1)) by (apply Z.pow_le_mono_r; lia). lia. }
    destruct m1 as [|m1|m1]; try lia.
    exists m1, (e + Z.pos n), r, s. split; [reflexivity|].
    rewrite (digits2_pos_div m (Z.pos n) m1) by (try lia; symmetry; exact Hm).
    fold d. replace (d - Z.pos n + (e + Z.pos n)) with (d + e) by lia. lia.
Qed.

Lemma round_nearest_even_digits (m : positive) (l : location) :
  exists m2, round_nearest_even (Z.pos m) l = Z.pos m2
    /\ (Z.pos (digits2_pos m2) = Z.pos (digits2_pos m)
        \/ Z.pos (digits2_pos m2) = Z.pos (digits2_pos m) + 1).
Proof.
  assert (exists m2, Z.pos m + 1 = Z.pos m2
            /\ (Z.pos (digits2_pos m2) = Z.pos (digits2_pos m)
                \/ Z.pos (digits2_pos m2) = Z.pos (digits2_pos m) + 1)) as Hup.
  { exists (Pos.succ m). split; [lia|].
    pose proof (digits2_pos_le m) as Hle. pose proof (digits2_pos_lt m) as Hlt.
    set (d := Z.pos (digits2_pos m)) in *.
    destruct (Z.eq_dec (Z.pos m + 1) (2 ^ d)) as [Heq|Hne].
    - right. apply digits2_pos_unique. replace (d + 1 - 1) with d by lia.
      rewrite Z.pow_add_r by lia. change (2 ^ 1) with 2. lia.
    - left. apply digits2_pos_unique. lia. }
  assert (exists m2, Z.pos m = Z.pos m2
            /\ (Z.pos (digits2_pos m2) = Z.pos (digits2_pos m)
                \/ Z.pos (digits2_pos m2) = Z.pos (digits2_pos m) + 1)) as Hsame
    by (exists m; auto).
  destruct l as [|[]]; cbn [round_nearest_even]; auto.
  destruct (Z.even (Z.pos m)); auto.
Qed.

(** Rounding a canonical-or-longer mantissa gives a valid float of the same
    sign that is not zero. *)
Lemma binary_round_aux_valid (s : bool) (m : positive) (e : Z) (l : location) :
  e <= fexp prec emax (Z.pos (digits2_pos m) + e) ->
  fexp prec emax (Z.pos (digits2_pos m) + e) - e < Z.pos (digits2_pos m) ->
  (exists m' e',
     binary_round_aux prec emax s (Z.pos m) e l = S754_finite s m' e'
     /\ valid_binary (S754_finite s m' e') = true)
  \/ binary_round_aux prec emax s (Z.pos m) e l = S754_infinity s.
Proof.
  intros Hle Hlt. unfold binary_round_aux.
  destruct (shr_fexp_canonical m e l Hle Hlt) as (m1 & e1 & r1 & s1 & -> & Hc1).
  cbn [shr_m].
  destruct (round_nearest_even_digits m1
              (loc_of_shr_record {| shr_m := Z.pos m1; shr_r := r1; shr_s := s1 |}))
    as (m2 & -> & Hd2).
  destruct (shr_fexp_canonical m2 e1 loc_Exact) as (m3 & e3 & r3 & s3 & -> & Hc3).
  { destruct Hd2 as [-> | ->]; [lia|].
    rewrite Z.add_shuffle0.
    destruct (fexp_succ (Z.pos (digits2_pos m1) + e1)); lia. }
  { destruct Hd2 as [-> | ->]; [lia|].
    rewrite Z.add_shuffle0.
    destruct (fexp_succ (Z.pos (digits2_pos m1) + e1)); lia. }
  cbn [shr_m].
  destruct (e3 <=? emax - prec) eqn:Hb; [left|right; reflexivity].
  exists m3, e3. split; [reflexivity|].
  unfold valid_binary, SpecFloat.valid_binary, bounded, canonical_mantissa.
  rewrite Hc3, Z.eqb_refl, Hb. reflexivity.
Qed.

Lemma binary_round_valid (s : bool) (m : positive) :
  (exists m' e',
     binary_round prec emax s m 0 = S754_finite s m' e'
     /\ valid_binary (S754_finite s m' e') = true)
  \/ binary_round prec emax s m 0 = S754_infinity s.
Proof.
  unfold binary_round, shl_align.
  set (d := Z.pos (digits2_pos m)).
  assert (fexp prec emax (d + 0) = Z.max (d - 53) (-1074)) as Hf
    by (unfold fexp, emin; change prec with 53; change emax with 1024; lia).
  destruct (fexp prec emax (d + 0) - 0) as [|k|k] eqn:Hk.
  - apply binary_round_aux_valid; fold d; lia.
  - apply binary_round_aux_valid; fold d; lia.
  - apply binary_round_aux_valid; rewrite digits2_pos_iter_xO; fold d.
    + replace (d + Z.pos k + fexp prec emax (d + 0)) with (d + 0) by lia. lia.
    + replace (d + Z.pos k + fexp prec emax (d + 0)) with (d + 0) by lia. lia.
Qed.

Lemma Z2float_negative (m : positive) :
  (Z2float (Z.neg m) 0 <? 0)%float = true.
Proof.
  unfold Z2float. simpl binary_normalize. rewrite FloatAxioms.ltb_spec.
  destruct (binary_round_valid true m) as [(m' & e' & -> & Hv)| ->].
  - rewrite Prim2SF_SF2Prim by exact Hv. reflexivity.
  - reflexivity.
Qed.

Lemma int_to_float_negative (n : Z) (f : float) :
  n < 0 -> int_to_float n = Ok f -> (f <? 0)%float = true.
Proof.
  intros Hn. unfold int_to_float. cbv zeta.
  destruct (PrimFloat.is_finite (Z2float n 0)); unfold raise; [|discriminate].
  intros [= <-]. destruct n as [|p|p]; try lia. apply Z2float_negative.
Qed.

Section DomainErrors.
Context `{Libm}.

(** An exception raised at a position evaluation reaches aborts the whole
    evaluation. *)
Lemma _eval_fill_Raise (k : ectx) (n : node) (e : exn) :
  _eval n = Raise e -> exists e', _eval (fill k n) = Raise e'.
Proof.
  intros Hn. induction k as
    [|k IH|k IH|k IH op r|l op k IH|op k IH|func before k IH after kws]; simpl.
  - eauto.
  - exact IH.
  - exact IH.
  - destruct IH as [e' ->]. simpl. eauto.
  - destruct (_eval l) as [vl|el]; simpl; [|eauto].
    destruct IH as [e' ->]. simpl. eauto.
  - destruct IH as [e' ->]. simpl. eauto.
  - destruct func; eauto.
    destruct (_ALLOWED_FUNCTIONS !! id); eauto.
    destruct IH as [e' He'].
    destruct (mapM_Raise _eval before _ after e' He') as [e'' ->].
    simpl. eauto.
Qed.

Lemma coerce_zero (x y : value) :
  value_is_zero y = true ->
  match coerce x y with
  | Ok (IntOps _ b) => b = 0
  | Ok (FloatOps _ b) => float_is_zero b = true
  | Ok (ComplexOps _ b) => complex_is_zero b = true
  | Raise _ => True
  end.
Proof.
  unfold coerce, to_complex, to_float.
  destruct x as [a|a|a|ar ai], y as [b|b|b|br bi]; simpl; intros Hz;
    try (apply Z.eqb_eq in Hz as ->);
    try (destruct b; [discriminate|]); simpl;
    rewrite ?int_to_float_0; simpl;
    repeat match goal with
           | |- context [int_to_float ?n] => destruct (int_to_float n); simpl
           end;
    auto; unfold complex_is_zero; simpl; rewrite ?Hz; auto.
Qed.

(** Dividing by a zero, or taking the remainder, raises. *)
Lemma py_truediv_zero (x y : value) :
  value_is_zero y = true -> exists e, py_truediv x y = Raise e.
Proof.
  intros Hz. unfold py_truediv. pose proof (coerce_zero x y Hz) as Hc.
  destruct (coerce x y) as [[a b|a b|a b]|e]; simpl; unfold raise; eauto.
  - subst b. simpl. eauto.
  - rewrite Hc. eauto.
  - rewrite Hc. eauto.
Qed.

Lemma py_mod_zero (x y : value) :
  value_is_zero y = true -> exists e, py_mod x y = Raise e.
Proof.
  intros Hz. unfold py_mod. pose proof (coerce_zero x y Hz) as Hc.
  destruct (coerce x y) as [[a b|a b|a b]|e]; simpl; unfold raise; eauto.
  - subst b. simpl. eauto.
  - rewrite Hc. eauto.
Qed.

(** [math_1] turns the NaN that [sqrt] gives a negative number into an
    exception. *)
Lemma math_1_sqrt_negative (f : float) :
  (f <? 0)%float = true -> exists e, math_1 PrimFloat.sqrt false f = Raise e.
Proof.
  intros Hneg. unfold math_1.
  assert (PrimFloat.is_nan (PrimFloat.sqrt f) = true /\ PrimFloat.is_nan f = false)
    as [-> ->].
  { rewrite FloatAxioms.ltb_spec in Hneg.
    split.
    - apply is_nan_spec. rewrite FloatAxioms.sqrt_spec.
      destruct (Prim2SF f) as [[]|[]| |[] m e]; try discriminate; reflexivity.
    - destruct (PrimFloat.is_nan f) eqn:Hn; [|reflexivity].
      apply is_nan_spec in Hn. rewrite Hn in Hneg. discriminate. }
  simpl. unfold raise. eauto.
Qed.

(** [m_log] answers a NaN or minus infinity outside the domain, whatever the
    C library does, and [math_1] raises. *)
Lemma math_1_log_nonpositive (clog : float -> float) (f : float) :
  (f <=? 0)%float = true -> exists e, math_1 (m_log clog) false f = Raise e.
Proof.
  intros Hle. unfold math_1, m_log, PrimFloat.is_finite.
  rewrite FloatAxioms.leb_spec in Hle.
  assert (PrimFloat.is_nan f = false) as Hnan.
  { destruct (PrimFloat.is_nan f) eqn:Hn; [|reflexivity].
    apply is_nan_spec in Hn. rewrite Hn in Hle. discriminate. }
  assert ((0 <? f)%float = false) as Hpos.
  { rewrite FloatAxioms.ltb_spec. change (Prim2SF 0) with (S754_zero false).
    destruct (Prim2SF f) as [[]|[]| |[] m e]; try discriminate; reflexivity. }
  rewrite Hnan, Hpos. simpl.
  destruct (PrimFloat.is_infinity f) eqn:Hinf; simpl.
  - unfold raise. eauto.
  - destruct (f =? 0)%float; simpl; unfold raise; eauto.
Qed.

Lemma loghelper_nonpositive (clog : float -> float) (v : value) :
  is_nonpositive v = true -> exists e, loghelper (m_log clog) v = Raise e.
Proof.
  intros Hle. unfold loghelper.
  destruct v as [n|b|f|re im]; simpl in *; try discriminate.
  - rewrite Hle. unfold raise. eauto.
  - destruct b; [discriminate|]. simpl. unfold raise. eauto.
  - apply math_1_log_nonpositive. assumption.
Qed.

(** [sqrt] of a negative number raises: a negative int is converted to a
    negative float first, unless the conversion itself overflows. *)
Lemma math_real_sqrt_negative (v : value) (rest : list value) :
  is_negative v = true ->
  exists e, math_real PrimFloat.sqrt (v :: rest) = Raise e.
Proof.
  intros Hneg. unfold math_real.
  destruct rest; [|unfold wrong_arity, raise; eauto].
  destruct v as [n|b|f|re im]; simpl in *; try discriminate.
  - apply Z.ltb_lt in Hneg.
    destruct (int_to_float n) as [f|e] eqn:Hf; simpl; [|eauto].
    apply math_1_sqrt_negative. eapply int_to_float_negative; eassumption.
  - apply math_1_sqrt_negative. assumption.
Qed.

(** The call of a function on an argument outside its domain raises,
    whatever further arguments it is given. *)
Lemma call_out_of_domain (name : string) (f : callable) (v : value)
    (rest : list value) :
  _ALLOWED_FUNCTIONS !! name = Some f -> out_of_domain name v ->
  exists e, call f (v :: rest) = Raise e.
Proof.
  intros Hf Hood.
  inversion Hood as [v' Hneg Hn Hv|name' v' Hname Hle Hn Hv]; subst.
  - vm_compute in Hf. injection Hf as <-.
    simpl. apply math_real_sqrt_negative. assumption.
  - destruct (loghelper_nonpositive c_log _ Hle) as [e1 He1].
    destruct (loghelper_nonpositive c_log10 _ Hle) as [e2 He2].
    apply elem_of_cons in Hname as [->|Hname];
      [|apply list_elem_of_singleton in Hname as ->].
    + vm_compute in Hf. injection Hf as <-.
      simpl. unfold math_log_impl.
      destruct rest as [|b [|? ?]]; rewrite ?He1; simpl;
        unfold wrong_arity, raise; eauto.
    + vm_compute in Hf. injection Hf as <-.
      simpl. unfold math_log10_impl.
      destruct rest; rewrite ?He2; simpl; unfold wrong_arity, raise; eauto.
Qed.

Lemma domain_failure_Raise (n : node) :
  domain_failure n -> exists e, _eval n = Raise e.
Proof.
  intros [l op r vl vr Hop Hl Hr Hz|name a rest kws va Ha Hood]; simpl.
  - rewrite Hl, Hr. simpl.
    apply elem_of_cons in Hop as [->|Hop];
      [|apply list_elem_of_singleton in Hop as ->].
    + apply py_truediv_zero. assumption.
    + apply py_mod_zero. assumption.
  - assert (is_Some (_ALLOWED_FUNCTIONS !! name)) as [f Hf].
    { apply allowed_function_dom. unfold whitelisted_functions.
      destruct Hood as [v _|name v Hname _]; rewrite !elem_of_cons in *; tauto. }
    rewrite Hf, Ha. simpl.
    destruct (mapM _eval rest) as [vs|e]; simpl; [|eauto].
    eapply call_out_of_domain; eassumption.
Qed.

End DomainErrors.

(** C3, as amended.  For every parser and every input whose evaluation
    reaches (at a position [k] of the tree) a division or remainder by a zero
    or a call of sqrt, log or log10 on an argument outside the function's
    domain, [safe_eval_expr] fails, and the failure is a ValueError like every
    other failure of the evaluator: no infinity and no NaN is returned. *)
Theorem domain_error_fails `{Libm} (parse : string -> result node)
    (s : string) (k : ectx) (n : node) :
  parse s = Ok (fill k n) -> domain_failure n ->
  exists msg, safe_eval_expr_with parse s = Raise (Exn ValueError msg).
Proof.
  intros Hp Hn. apply safe_eval_expr_with_fails.
  intros t Ht. rewrite Hp in Ht. injection Ht as <-.
  destruct (domain_failure_Raise n Hn) as [e He].
  eapply _eval_fill_Raise. eassumption.
Qed.

(** The hypotheses of [domain_error_fails] hold of [1 + 10/0]. *)
Lemma domain_error_fails_witness :
  exists (k : ectx) (n : node), forall L : Libm,
    ast_parse "1 + 10/0" = Ok (fill k n)
    /\ domain_failure n
    /\ exists msg, safe_eval_expr "1 + 10/0" = Raise (Exn ValueError msg).
Proof.
  exists (InExpression (InRight (Constant (CInt 1)) Add Hole)),
    (BinOp (Constant (CInt 10)) Div (Constant (CInt 0))).
  intros L.
  assert (ast_parse "1 + 10/0"
          = Ok (fill (InExpression (InRight (Constant (CInt 1)) Add Hole))
                  (BinOp (Constant (CInt 10)) Div (Constant (CInt 0)))))
    as Hp by (vm_compute; reflexivity).
  assert (domain_failure (BinOp (Constant (CInt 10)) Div (Constant (CInt 0))))
    as Hd.
  { apply (df_division _ Div _ (VInt 10) (VInt 0)); try reflexivity.
    apply list_elem_of_here. }
  split; [exact Hp|]. split; [exact Hd|].
  exact (domain_error_fails ast_parse "1 + 10/0" _ _ Hp Hd).
Defined.

(** C3, the claim as stated fails: the failures of [10/0] and [sqrt(-1)] are
    ValueErrors, the kind an unbalanced parenthesis produces too. *)
Lemma domain_errors_are_ValueErrors :
  (forall L : Libm,
     safe_eval_expr "10/0"
     = Raise (Exn ValueError "Invalid expression: division by zero"))
  /\ (forall L : Libm,
        safe_eval_expr "sqrt(-1)"
        = Raise (Exn ValueError "Invalid expression: math domain error"))
  /\ (forall L : Libm,
        exists msg, safe_eval_expr "2**(3+1" = Raise (Exn ValueError msg)).
Proof.
  split; [|split]; intros L.
  - vm_compute. reflexivity.
  - vm_compute. reflexivity.
  - eexists. vm_compute. reflexivity.
Qed.

(** ** C2: the type of a result *)

(** C2 fails on the code: [True] evaluates to the boolean [True], because
    [isinstance(True, (int, float))] holds, and an imaginary literal evaluates
    to a complex number. *)
Lemma boolean_and_complex_results :
  (forall L : Libm, safe_eval_expr "True" = Ok (VBool true))
  /\ (forall L : Libm, safe_eval_expr "1j" = Ok (VComplex 0 1)).
Proof. split; intros L; vm_compute; reflexivity. Qed.

(** ** C5: precedence and associativity *)


(** ** C6, C8, C9: what the session shows *)

(** C6 fails on the code: [True] and [1] have the same numeric value and are
    shown as different texts. *)
Lemma equal_values_shown_differently (L : Libm) :
  safe_eval_expr "True" = Ok (VBool true)
  /\ safe_eval_expr "1" = Ok (VInt 1)
  /\ py_eq (VBool true) (VInt 1) = true
  /\ display_var (evaluate ast_parse (set_display "True" init)) = "True"
  /\ display_var (evaluate ast_parse (set_display "1" init)) = "1".
Proof. repeat split; vm_compute; reflexivity. Qed.

(** Floats that compare equal are the same float, or two zeros. *)
Lemma float_eqb_cases (f g : float) :
  (f =? g)%float = true ->
  f = g \/ (exists s t, Prim2SF f = S754_zero s /\ Prim2SF g = S754_zero t).
Proof.
  rewrite FloatAxioms.eqb_spec. intros He.
  destruct (Prim2SF f) as [s| s | |s m e] eqn:Hf,
           (Prim2SF g) as [t| t | |t n e'] eqn:Hg;
    try discriminate; try (destruct s; discriminate);
    try (destruct t; discriminate).
  - right. eauto.
  - left. apply Prim2SF_inj. rewrite Hf, Hg.
    destruct s, t; try discriminate; reflexivity.
  - left. apply Prim2SF_inj. rewrite Hf, Hg.
    unfold SFeqb, SFcompare in He.
    destruct s, t; try discriminate;
      destruct (Z.compare_spec e e') as [->| |]; try discriminate;
      change (Pos.compare_cont Eq m n) with (Pos.compare m n) in He;
      destruct (Pos.compare_spec m n) as [->| |]; try discriminate;
      reflexivity.
Qed.

(** What holds of C6: among ints and floats, equal values are shown as the
    same text, and a float that is a whole number as that int. *)
Lemma rendering_of_equal_numbers `{Libm} (v1 v2 : value) :
  is_int_or_float v1 = true -> is_int_or_float v2 = true ->
  py_eq v1 v2 = true ->
  str (format_result v1) = str (format_result v2).
Proof.
  destruct v1 as [a| |f|], v2 as [b'| |g|]; try discriminate; intros _ _; simpl.
  - intros He. apply Z.eqb_eq in He. congruence.
  - intros He. apply bool_decide_eq_true in He. rewrite He. reflexivity.
  - intros He. apply bool_decide_eq_true in He. rewrite He. reflexivity.
  - intros He. apply float_eqb_cases in He as [->|(s & t & Hf & Hg)];
      [reflexivity|].
    unfold float_integral. rewrite Hf, Hg. reflexivity.
Qed.

(** C8 fails on the code: [abs(1, x = 2)] evaluates to 1, its history entry
    is cut at the first [" = "], and the recalled text does not evaluate. *)
Lemma recalled_entry_does_not_evaluate (L : Libm) :
  let c1 := evaluate ast_parse (set_display "abs(1, x = 2)" init) in
  let c2 := on_history_select [0%nat] c1 in
  display_var c1 = "1"
  /\ history_list c1 = ["abs(1, x = 2) = 1"]
  /\ display_var c2 = "abs(1, x"
  /\ display_var (evaluate ast_parse c2) = "Error".
Proof. cbv zeta. repeat split; vm_compute; reflexivity. Qed.

(** C9 fails on the code: [toggle_sign] shows the negated value of [8/2] as
    [-4.0], where [evaluate] shows whole numbers without the fraction. *)
Lemma toggle_sign_keeps_fraction (L : Libm) :
  safe_eval_expr "8/2" = Ok (VFloat 4)
  /\ display_var (evaluate ast_parse (set_display "8/2" init)) = "4"
  /\ display_var (toggle_sign ast_parse (set_display "8/2" init)) = "-4.0"
  /\ str (format_result (VFloat (-4))) = Ok "-4".
Proof. repeat split; vm_compute; reflexivity. Qed.

(** ** C7: the history *)

Lemma same_history_inv (c c' : Calculator) :
  same_history c c' -> history_inv c -> history_inv c'.
Proof. intros [Hh Hl]. unfold history_inv. rewrite Hh, Hl. auto. Qed.

Create HintDb frame discriminated.

Lemma same_history_refl c : same_history c c.
Proof. split; reflexivity. Qed.
Lemma same_history_set_display txt c : same_history c (set_display txt c).
Proof. split; reflexivity. Qed.
Lemma same_history_icursor pos c : same_history c (icursor pos c).
Proof. split; reflexivity. Qed.
Lemma same_history_set_result_shown b c : same_history c (set_result_shown b c).
Proof. split; reflexivity. Qed.
Lemma same_history_set_last_answer a c : same_history c (set_last_answer a c).
Proof. split; reflexivity. Qed.
Lemma same_history_set_clipboard s c : same_history c (set_clipboard s c).
Proof. split; reflexivity. Qed.
Lemma same_history_trans c1 c2 c3 :
  same_history c1 c2 -> same_history c2 c3 -> same_history c1 c3.
Proof. intros [? ?] [? ?]. split; congruence. Qed.

#[global] Hint Resolve same_history_refl same_history_set_display
  same_history_icursor same_history_set_result_shown
  same_history_set_last_answer same_history_set_clipboard : frame.

Ltac frame :=
  repeat first
    [ assumption
    | apply same_history_refl
    | eapply same_history_trans; [|solve [auto with frame]] ].

Lemma last_tail_snoc {A} (h : list A) (x : A) :
  h <> [] -> last (tail (h ++ [x])) = Some x.
Proof.
  destruct h as [|y h]; [congruence|]. intros _. simpl. apply last_snoc.
Qed.

(** The top line of the listbox is the newest entry. *)
Lemma history_inv_top (c : Calculator) :
  history_inv c -> history_list c !! 0%nat = last (history c).
Proof.
  intros [_ ->]. unfold last_n.
  destruct (history c) as [|x h _] using rev_ind; [reflexivity|].
  rewrite last_snoc, length_app. simpl.
  rewrite drop_app_le by lia. rewrite reverse_snoc. reflexivity.
Qed.

Section History.
Context `{Libm}.
Variable parse : string -> result node.

Lemma same_history_insert_text txt c : same_history c (insert_text txt c).
Proof. unfold insert_text. destruct (_ && _); frame. Qed.

Lemma same_history_clear c : same_history c (clear c).
Proof. unfold clear. frame. Qed.

Lemma same_history_backspace c : same_history c (backspace c).
Proof. unfold backspace. destruct (_ <? _)%nat; frame. Qed.

Lemma same_history_toggle_sign c : same_history c (toggle_sign parse c).
Proof.
  unfold toggle_sign. destruct (String.eqb _ _); [frame|].
  destruct (_ ≫= _) as [text|e]; [frame|apply same_history_insert_text].
Qed.

Lemma same_history_insert_last_answer c :
  same_history c (insert_last_answer c).
Proof.
  unfold insert_last_answer.
  destruct (String.eqb _ _); [frame|apply same_history_insert_text].
Qed.

Lemma same_history_on_history_select sel c :
  same_history c (on_history_select sel c).
Proof.
  unfold on_history_select. destruct sel; [frame|].
  destruct (split_once _ _) as [[? ?]|]; frame.
Qed.

(** What [_add_history] does to the list. *)
Lemma history_add_history expr result c :
  let entry := expr +:+ " = " +:+ result in
  history (_add_history expr result c)
  = if bool_decide (last (history c) = Some entry) then history c
    else if (50 <? length (history c ++ [entry]))%nat
         then tail (history c ++ [entry])
         else history c ++ [entry].
Proof.
  cbv zeta. unfold _add_history.
  destruct (bool_decide _); [reflexivity|].
  destruct (_ <? _)%nat; reflexivity.
Qed.


Lemma history_inv_add_history expr result c :
  history_inv c -> history_inv (_add_history expr result c).
Proof.
  intros [Hlen Hwin]. unfold _add_history.
  destruct (bool_decide _); [split; assumption|].
  split; [|reflexivity]. simpl.
  destruct (50 <? _)%nat eqn:Hl.
  - destruct (history c); simpl in *; rewrite ?length_app; simpl; lia.
  - apply Nat.ltb_ge in Hl. exact Hl.
Qed.

Lemma history_inv_evaluate c : history_inv c -> history_inv (evaluate parse c).
Proof.
  intros Hc. unfold evaluate.
  destruct (String.eqb _ _); [assumption|].
  destruct (result_text _ _) as [text|e].
  - apply history_inv_add_history.
    eapply same_history_inv; [|exact Hc]. frame.
  - eapply same_history_inv; [|exact Hc]. frame.
Qed.

Lemma same_history_copy_result c : same_history c (copy_result c).
Proof. unfold copy_result. frame. Qed.

Lemma history_inv_on_button_click key c :
  history_inv c -> history_inv (on_button_click parse key c).
Proof.
  intros Hc. unfold on_button_click.
  repeat match goal with
         | |- context [String.eqb ?a ?b] => destruct (String.eqb a b)
         end;
    auto using history_inv_evaluate;
    (eapply same_history_inv; [|exact Hc]);
    auto using same_history_insert_text, same_history_backspace,
      same_history_clear, same_history_toggle_sign.
Qed.

Lemma history_inv_handle ev c : history_inv c -> history_inv (handle parse ev c).
Proof.
  intros Hc.
  destruct ev as [key|txt| | | | | |sel|text pos]; simpl;
    auto using history_inv_evaluate, history_inv_on_button_click;
    (eapply same_history_inv; [|exact Hc]);
    auto using same_history_insert_text, same_history_backspace,
      same_history_clear, same_history_insert_last_answer,
      same_history_on_history_select, same_history_copy_result.
Qed.

Lemma reachable_history_inv c : reachable parse c -> history_inv c.
Proof.
  induction 1 as [|ev c _ IH].
  - split; [simpl; lia | reflexivity].
  - apply history_inv_handle. exact IH.
Qed.

Lemma history_add_entry expr result c :
  history (_add_history expr result c)
  = add_entry (expr +:+ " = " +:+ result) (history c).
Proof. apply history_add_history. Qed.




End History.






(** Evaluating the 51 expressions [1], [2], ..., [51] leaves the 50 entries
    of [2] to [51]. *)
Lemma fifty_one_evaluations (L : Libm) :
  history
    (fold_left
       (fun c n => evaluate ast_parse (set_display (pretty (Z.of_nat n)) c))
       (seq 1 51) init)
  = map (fun n => pretty (Z.of_nat n) +:+ " = " +:+ pretty (Z.of_nat n))
      (seq 2 50).
Proof. vm_compute. reflexivity. Qed.

(** ** C10: numeric literals and characters that start no token *)

(** A fact about one character is decided by going through the 256 of
    them. *)
Ltac code_solver :=
  match goal with
  | c : ascii |- ?g = _ =>
      lazymatch g with context [c] => idtac end;
      repeat match goal with
             | H : ?b = _ |- _ =>
                 lazymatch type of b with bool => idtac end;
                 lazymatch b with context [c] => idtac end;
                 tryif (match b with
                        | context [?x] =>
                            is_var x; tryif constr_eq x c then fail else idtac
                        end)
                 then fail else revert H
             end;
      destruct c as [[] [] [] [] [] [] [] []]; vm_compute; intros;
      first [reflexivity | discriminate | congruence]
  end.

Section Lexer.
Context `{Libm}.

Lemma is_digit_inert c : is_digit c = true -> inert c = true.
Proof. intros. code_solver. Qed.
Lemma is_hexdigit_inert c : is_hexdigit c = true -> inert c = true.
Proof. intros. code_solver. Qed.
Lemma is_name_char_inert c : is_name_char c = true -> inert c = true.
Proof. intros. code_solver. Qed.

Lemma doomed_app pre r : forallb inert pre = true -> doomed (pre ++ r) = doomed r.
Proof.
  induction pre as [|c pre IH]; simpl; [reflexivity|].
  intros Hc. apply andb_true_iff in Hc as [Hc Hpre].
  rewrite (IH Hpre). unfold inert in Hc.
  apply andb_true_iff in Hc as [Hi Ho].
  apply negb_true_iff in Hi, Ho. rewrite Hi, Ho. reflexivity.
Qed.

Lemma consumes_refl cs : consumes cs cs.
Proof. exists []. split; reflexivity. Qed.

Lemma consumes_cons c cs r : inert c = true -> consumes cs r -> consumes (c :: cs) r.
Proof.
  intros Hc (pre & -> & Hpre). exists (c :: pre). split; [reflexivity|].
  simpl. rewrite Hc, Hpre. reflexivity.
Qed.

Lemma consumes_trans cs r r' : consumes cs r -> consumes r r' -> consumes cs r'.
Proof.
  intros (p1 & -> & H1) (p2 & -> & H2). exists (p1 ++ p2).
  split; [apply app_assoc|]. rewrite forallb_app, H1, H2. reflexivity.
Qed.

Lemma consumes_doomed cs r : consumes cs r -> doomed cs = doomed r.
Proof. intros (pre & -> & Hpre). apply doomed_app. exact Hpre. Qed.

Lemma more_digits_consumes p cs ds r :
  (forall c, p c = true -> inert c = true) ->
  more_digits p cs = (ds, r) -> consumes cs r.
Proof.
  intros Hp. revert ds r. induction cs as [|c cs IH]; simpl; intros ds r Hm.
  - injection Hm as <- <-. apply consumes_refl.
  - destruct (p c) eqn:Hc.
    + destruct (more_digits p cs) as [ds' r'] eqn:Hm'.
      injection Hm as <- <-. apply consumes_cons; eauto.
    + destruct (code c =? 95)%N eqn:Hu.
      * destruct cs as [|d cs'].
        { injection Hm as <- <-. apply consumes_refl. }
        destruct (p d) eqn:Hd.
        -- apply consumes_cons; [code_solver|]. eapply IH. exact Hm.
        -- injection Hm as <- <-. apply consumes_refl.
      * injection Hm as <- <-. apply consumes_refl.
Qed.

Lemma digitpart_consumes p cs ds r :
  (forall c, p c = true -> inert c = true) ->
  digitpart p cs = Some (ds, r) -> consumes cs r.
Proof.
  intros Hp. unfold digitpart. destruct cs as [|c cs]; [discriminate|].
  destruct (p c) eqn:Hc; [|discriminate].
  destruct (more_digits p cs) as [ds' r'] eqn:Hm. intros [= <- <-].
  apply consumes_cons; eauto using more_digits_consumes.
Qed.

Lemma end_of_number_rest c rest t r :
  end_of_number c rest = Ok (t, r) -> r = rest.
Proof.
  unfold end_of_number. destruct rest as [|x rest]; [congruence|].
  destruct (_ && _); [discriminate|]. congruence.
Qed.

Lemma lex_radix_consumes p base cs t r :
  (forall c, p c = true -> inert c = true) ->
  lex_radix p base cs = Ok (t, r) -> consumes cs r.
Proof.
  intros Hp. unfold lex_radix.
  destruct (digitpart p _) as [[ds rest]|] eqn:Hd; [|discriminate].
  intros He. apply end_of_number_rest in He as ->.
  destruct cs as [|c cs']; [discriminate|].
  destruct (code c =? 95)%N eqn:Hu.
  - apply consumes_cons; [code_solver|]. eauto using digitpart_consumes.
  - eauto using digitpart_consumes.
Qed.

Lemma lex_fraction_consumes cs fd b r :
  lex_fraction cs = (fd, b, r) -> consumes cs r.
Proof.
  unfold lex_fraction. destruct cs as [|c cs].
  { intros [= <- <- <-]. apply consumes_refl. }
  destruct (code c =? 46)%N eqn:Hc.
  - destruct (digitpart is_digit cs) as [[fd' r']|] eqn:Hd; intros [= <- <- <-];
      (apply consumes_cons; [code_solver|]);
      eauto using digitpart_consumes, is_digit_inert, consumes_refl.
  - intros [= <- <- <-]. apply consumes_refl.
Qed.

Lemma lex_exponent_consumes cs ex b r :
  lex_exponent cs = (ex, b, r) -> consumes cs r.
Proof.
  unfold lex_exponent. destruct cs as [|c cs].
  { intros [= <- <- <-]. apply consumes_refl. }
  destruct (_ || _) eqn:Hc; [|intros [= <- <- <-]; apply consumes_refl].
  destruct cs as [|s x].
  { simpl. intros [= <- <- <-]. apply consumes_refl. }
  destruct (code s =? 43)%N eqn:Hplus; [|destruct (code s =? 45)%N eqn:Hminus].
  - destruct (digitpart is_digit x) as [[ed r'']|] eqn:Hd; intros [= <- <- <-];
      [|apply consumes_refl].
    apply consumes_cons; [code_solver|]. apply consumes_cons; [code_solver|].
    eauto using digitpart_consumes, is_digit_inert.
  - destruct (digitpart is_digit x) as [[ed r'']|] eqn:Hd; intros [= <- <- <-];
      [|apply consumes_refl].
    apply consumes_cons; [code_solver|]. apply consumes_cons; [code_solver|].
    eauto using digitpart_consumes, is_digit_inert.
  - destruct (digitpart is_digit (s :: x)) as [[ed r'']|] eqn:Hd;
      intros [= <- <- <-]; [|apply consumes_refl].
    apply consumes_cons; [code_solver|].
    eauto using digitpart_consumes, is_digit_inert.
Qed.

Lemma span_consumes p cs a r :
  (forall c, p c = true -> inert c = true) ->
  span p cs = (a, r) -> consumes cs r.
Proof.
  intros Hp. revert a r. induction cs as [|c cs IH]; simpl; intros a r Hs.
  - injection Hs as <- <-. apply consumes_refl.
  - destruct (p c) eqn:Hc.
    + destruct (span p cs) as [a' r'] eqn:Hs'. injection Hs as <- <-.
      apply consumes_cons; eauto.
    + injection Hs as <- <-. apply consumes_refl.
Qed.

Lemma is_op_char_inert c : is_op_char c = true -> inert c = true.
Proof. intros. code_solver. Qed.

Lemma two_chars_inert a b : two_chars a b = true -> inert b = true.
Proof.
  unfold two_chars. rewrite !orb_true_iff, !andb_true_iff.
  intros [[[Hb _]|[Hb Ha]]|[Hb _]].
  - code_solver.
  - apply N.eqb_eq in Hb. rewrite <- Hb in Ha. code_solver.
  - code_solver.
Qed.

Lemma three_chars_inert a b c :
  three_chars a b c = true -> inert b = true /\ inert c = true.
Proof.
  unfold three_chars. rewrite !orb_true_iff, !andb_true_iff.
  intros [[[Hc Hb] Ha]|[[_ Hb] Hc]].
  - apply N.eqb_eq in Hb. rewrite <- Hb in Ha. split; code_solver.
  - split; code_solver.
Qed.

(** An operator is made of inert characters, and of one at least. *)
Lemma lex_op_progress a rest o r :
  lex_op (a :: rest) = Some (o, r) -> inert a = true /\ consumes rest r.
Proof.
  unfold lex_op. destruct (is_op_char a) eqn:Ha; [|discriminate].
  apply is_op_char_inert in Ha. destruct rest as [|b [|c r0]].
  - intros [= <- <-]. split; [assumption|apply consumes_refl].
  - destruct (two_chars a b) eqn:H2; intros [= <- <-];
      (split; [assumption|]).
    + apply consumes_cons; [eapply two_chars_inert; exact H2|].
      apply consumes_refl.
    + apply consumes_refl.
  - destruct (three_chars a b c) eqn:H3; [|destruct (two_chars a b) eqn:H2];
      intros [= <- <-]; (split; [assumption|]).
    + destruct (three_chars_inert _ _ _ H3) as [Hb Hc].
      apply consumes_cons; [exact Hb|].
      apply consumes_cons; [exact Hc|]. apply consumes_refl.
    + apply consumes_cons; [eapply two_chars_inert; exact H2|].
      apply consumes_refl.
    + apply consumes_refl.
Qed.

Lemma lex_op_None a rest : lex_op (a :: rest) = None -> is_op_char a = false.
Proof.
  unfold lex_op. destruct (is_op_char a); [|reflexivity].
  destruct rest as [|b [|c r]];
    repeat match goal with
           | |- context [if ?x then _ else _] => destruct x
           end; discriminate.
Qed.

(** *** The tokenizer makes progress *)

Lemma consumes_length cs r : consumes cs r -> (length r <= length cs)%nat.
Proof. intros (pre & -> & _). rewrite length_app. lia. Qed.

Lemma span_progress c rest nm r :
  is_name_start c = true -> span is_name_char (c :: rest) = (nm, r) ->
  consumes rest r.
Proof.
  intros Hc. simpl. unfold is_name_char at 1. rewrite Hc. simpl.
  destruct (span is_name_char rest) as [a' r'] eqn:Hs. intros [= <- <-].
  eapply span_consumes; [exact is_name_char_inert|exact Hs].
Qed.

(** What [lex_decimal] leaves, measured from [r0], once the integer part and
    the fraction are. *)
Lemma lex_decimal_from cs r0 t r :
  (forall ip r1 fp has_point r2,
     default ([], cs) (digitpart is_digit cs) = (ip, r1) ->
     lex_fraction r1 = (fp, has_point, r2) -> consumes r0 r2) ->
  lex_decimal cs = Ok (t, r) -> consumes r0 r.
Proof.
  intros H0. unfold lex_decimal.
  destruct (default ([], cs) (digitpart is_digit cs)) as [ip r1] eqn:Hip.
  destruct (lex_fraction r1) as [[fp has_point] r2] eqn:Hfp.
  pose proof (H0 _ _ _ _ _ eq_refl Hfp) as H2.
  destruct (lex_exponent r2) as [[ex has_exp] r3] eqn:Hex.
  pose proof (lex_exponent_consumes _ _ _ _ Hex) as H3.
  assert (consumes r0 r3) as H13 by eauto using consumes_trans.
  assert (forall k, end_of_number k r3 = Ok (t, r) -> consumes r0 r) as Hend.
  { intros k He. apply end_of_number_rest in He as ->. exact H13. }
  destruct r3 as [|c r4].
  - destruct (has_point || has_exp); [apply Hend|].
    destruct (leading_zero ip); [discriminate|].
    destruct (too_many_digits _); [discriminate|apply Hend].
  - destruct (_ || _) eqn:Hj.
    + simpl. intros He. apply end_of_number_rest in He as ->.
      eapply consumes_trans; [exact H13|].
      apply orb_true_iff in Hj.
      apply consumes_cons; [destruct Hj; code_solver|apply consumes_refl].
    + destruct (has_point || has_exp); [apply Hend|].
      destruct (leading_zero ip); [discriminate|].
      destruct (too_many_digits _); [discriminate|apply Hend].
Qed.

Lemma lex_decimal_progress c rest t r :
  is_digit c = true \/ (code c =? 46)%N = true ->
  lex_decimal (c :: rest) = Ok (t, r) -> consumes rest r.
Proof.
  intros Hc. apply lex_decimal_from. intros ip r1 fp has_point r2.
  unfold digitpart. destruct (is_digit c) eqn:Hd.
  - destruct (more_digits is_digit rest) as [ds r1'] eqn:Hm. simpl.
    intros [= <- <-] Hf.
    eapply consumes_trans; [|eapply lex_fraction_consumes; exact Hf].
    eapply more_digits_consumes; [exact is_digit_inert|exact Hm].
  - destruct Hc as [Hc|Hc]; [discriminate|]. simpl. intros [= <- <-].
    unfold lex_fraction. rewrite Hc.
    destruct (digitpart is_digit rest) as [[fd r']|] eqn:Hp; intros [= <- <- <-].
    + eapply digitpart_consumes; [exact is_digit_inert|exact Hp].
    + apply consumes_refl.
Qed.

Lemma lex_number_progress c rest t r :
  is_digit c = true \/ (code c =? 46)%N = true ->
  lex_number (c :: rest) = Ok (t, r) -> consumes rest r.
Proof.
  intros Hc. unfold lex_number.
  destruct rest as [|x cs']; [apply lex_decimal_progress; exact Hc|].
  destruct (code c =? 48)%N; [|apply lex_decimal_progress; exact Hc].
  repeat match goal with
         | |- context [if ?b || ?b' then _ else _] =>
             destruct (b || b') eqn:?
         end;
    try (apply lex_decimal_progress; exact Hc);
    intros He;
    match goal with
    | H : _ || _ = true |- _ => apply orb_true_iff in H
    end;
    (apply consumes_cons;
     [match goal with H : _ \/ _ |- _ => destruct H; code_solver end|]);
    eapply lex_radix_consumes; try exact He; intros d Hd; code_solver.
Qed.

(** *** What the lexer of numbers raises is a SyntaxError *)

Lemma end_of_number_SyntaxError c rest e :
  end_of_number c rest = Raise e -> exn_cls e = SyntaxError.
Proof.
  unfold end_of_number, syntax_error, raise.
  destruct rest as [|x rest]; [discriminate|].
  destruct (_ && _); [|discriminate]. intros [= <-]. reflexivity.
Qed.

Lemma lex_radix_SyntaxError p base cs e :
  lex_radix p base cs = Raise e -> exn_cls e = SyntaxError.
Proof.
  unfold lex_radix. destruct (digitpart p _) as [[ds rest]|].
  - apply end_of_number_SyntaxError.
  - unfold syntax_error, raise. intros [= <-]. reflexivity.
Qed.

Lemma lex_decimal_SyntaxError cs e :
  lex_decimal cs = Raise e -> exn_cls e = SyntaxError.
Proof.
  unfold lex_decimal.
  destruct (default ([], cs) (digitpart is_digit cs)) as [ip r1].
  destruct (lex_fraction r1) as [[fp has_point] r2].
  destruct (lex_exponent r2) as [[ex has_exp] r3].
  destruct (match r3 with [] => false | c :: _ => _ end);
    [apply end_of_number_SyntaxError|].
  destruct (has_point || has_exp); [apply end_of_number_SyntaxError|].
  destruct (leading_zero ip);
    [unfold syntax_error, raise; intros [= <-]; reflexivity|].
  destruct (too_many_digits _); [|apply end_of_number_SyntaxError].
  unfold syntax_error, raise. intros [= <-]. reflexivity.
Qed.

Lemma lex_number_SyntaxError cs e :
  lex_number cs = Raise e -> exn_cls e = SyntaxError.
Proof.
  unfold lex_number.
  destruct cs as [|z [|x r]]; try apply lex_decimal_SyntaxError.
  repeat match goal with
         | |- context [if ?b then _ else _] => destruct b
         end;
    first [apply lex_decimal_SyntaxError | apply lex_radix_SyntaxError].
Qed.

(** *** An illegal character makes the tokenizer fail *)

(** A character that is no blank, starts no number, no name and no operator
    and is not illegal is one the model does not lex. *)
Lemma unlexed_otherwise c :
  is_blank c = false -> is_digit c = false -> is_name_start c = false ->
  is_op_char c = false -> illegal_char c = false -> unlexed c = true.
Proof. intros. code_solver. Qed.

(** What [nest] raises is a SyntaxError. *)
Lemma nest_SyntaxError parenstack o e :
  nest parenstack o = Raise e -> exn_cls e = SyntaxError.
Proof.
  unfold nest, syntax_error, raise. intros He.
  repeat match type of He with
         | (if ?b then _ else _) = _ => destruct b
         | match ?l with [] => _ | _ :: _ => _ end = _ => destruct l
         end; try discriminate; injection He as <-; reflexivity.
Qed.

Lemma tokenize_from_doomed fuel parenstack cs :
  (length cs < fuel)%nat -> doomed cs = true ->
  exists msg, tokenize_from fuel parenstack cs = Raise (Exn SyntaxError msg).
Proof.
  revert parenstack cs.
  induction fuel as [|fuel IH]; intros parenstack cs Hlen Hd; [lia|].
  destruct cs as [|c rest]; [discriminate|]. simpl in Hlen.
  assert (forall st r, inert c = true -> consumes rest r ->
                       exists msg, tokenize_from fuel st r
                                   = Raise (Exn SyntaxError msg))
    as Hnext.
  { intros st r Hc Hr. apply IH.
    - apply consumes_length in Hr. lia.
    - rewrite <- (consumes_doomed _ _ (consumes_cons _ _ _ Hc Hr)). exact Hd. }
  simpl in Hd. cbn [tokenize_from].
  destruct (is_blank c) eqn:Hb.
  { apply Hnext; [code_solver|apply consumes_refl]. }
  destruct (code c =? 35)%N eqn:Hh.
  { exfalso. assert (illegal_char c = false) as Hi by code_solver.
    assert (unlexed c = true) as Hu by code_solver.
    rewrite Hi, Hu in Hd. discriminate. }
  destruct (is_digit c || _) eqn:Hn.
  { assert (is_digit c = true \/ (code c =? 46)%N = true) as Hc.
    { apply orb_true_iff in Hn as [Hn|Hn]; [auto|].
      apply andb_true_iff in Hn as [Hn _]. auto. }
    destruct (lex_number (c :: rest)) as [[t r]|e] eqn:Hl; simpl.
    - destruct (Hnext parenstack r) as [msg ->];
        [destruct Hc; code_solver|eapply lex_number_progress; eassumption|].
      simpl. eauto.
    - apply lex_number_SyntaxError in Hl. destruct e as [cls msg].
      simpl in Hl. subst cls. eauto. }
  apply orb_false_iff in Hn as [Hdig _].
  destruct (is_name_start c) eqn:Hs.
  { destruct (span is_name_char (c :: rest)) as [nm r] eqn:Hsp.
    destruct (Hnext parenstack r) as [msg ->];
      [code_solver|eapply span_progress; eassumption|].
    simpl. eauto. }
  destruct (lex_op (c :: rest)) as [[o r]|] eqn:Ho.
  { apply lex_op_progress in Ho as [Hc Hr].
    destruct (nest parenstack o) as [st|e] eqn:Hst; simpl.
    - destruct (Hnext st r Hc Hr) as [msg ->]. simpl. eauto.
    - apply nest_SyntaxError in Hst. destruct e as [cls msg].
      simpl in Hst. subst cls. eauto. }
  apply lex_op_None in Ho.
  destruct (illegal_char c) eqn:Hi.
  { unfold syntax_error, raise. eauto. }
  rewrite (unlexed_otherwise c Hb Hdig Hs Ho Hi) in Hd. discriminate.
Qed.

(** [indentation] passes over the blanks a line starts with. *)
Lemma indentation_blanks col cs col' r :
  indentation col cs = (col', r) ->
  (exists pre, cs = pre ++ r /\ forallb is_blank pre = true)
  /\ match r with
     | x :: _ => is_blank x = false
     | [] => True
     end.
Proof.
  revert col. induction cs as [|c cs IH]; intros col Hi.
  { injection Hi as <- <-. split; [exists []; auto|exact I]. }
  cbn [indentation] in Hi.
  assert (forall col0, is_blank c = true ->
                       indentation col0 cs = (col', r) ->
                       (exists pre, c :: cs = pre ++ r
                                    /\ forallb is_blank pre = true)
                       /\ match r with
                          | x :: _ => is_blank x = false
                          | [] => True
                          end) as Hnext.
  { intros col0 Hb Hi0. destruct (IH col0 Hi0) as [(pre & -> & Hpre) Hr].
    split; [|exact Hr]. exists (c :: pre). simpl. rewrite Hb, Hpre. auto. }
  unfold is_blank in Hnext.
  destruct (code c =? 32)%N eqn:H32; [eapply Hnext; eauto|].
  destruct (code c =? 9)%N eqn:H9; [eapply Hnext; eauto|].
  destruct (code c =? 12)%N eqn:H12; [eapply Hnext; eauto|].
  injection Hi as <- <-. split; [exists []; auto|].
  unfold is_blank. rewrite H32, H9, H12. reflexivity.
Qed.

(** A text that starts with no blank starts at column 0. *)
Lemma indentation_none col c cs :
  is_blank c = false -> indentation col (c :: cs) = (col, c :: cs).
Proof.
  unfold is_blank. intros Hb. cbn [indentation].
  destruct (code c =? 32)%N; [discriminate|].
  destruct (code c =? 9)%N; [discriminate|].
  destruct (code c =? 12)%N; [discriminate|]. reflexivity.
Qed.

Lemma doomed_blanks pre r :
  forallb is_blank pre = true -> doomed (pre ++ r) = doomed r.
Proof.
  intros Hpre. apply doomed_app.
  induction pre as [|c pre IH]; [reflexivity|].
  simpl in Hpre. apply andb_true_iff in Hpre as [Hc Hpre].
  simpl. rewrite (IH Hpre), andb_true_r. clear -Hc. code_solver.
Qed.

Lemma tokenize_doomed s :
  doomed (list_ascii_of_string s) = true ->
  exists msg, tokenize s = Raise (Exn SyntaxError msg).
Proof.
  unfold tokenize. intros Hd.
  destruct (indentation 0 (list_ascii_of_string s)) as [col cs] eqn:Hi.
  apply indentation_blanks in Hi as [(pre & Hs & Hpre) Hb].
  rewrite Hs, (doomed_blanks _ _ Hpre) in Hd.
  destruct cs as [|c cs]; [discriminate|].
  assert ((code c =? 92)%N || (code c <=? 31)%N = false) as ->.
  { simpl in Hd. destruct (illegal_char c) eqn:Hic; [clear -Hic; code_solver|].
    destruct (unlexed c) eqn:Hu; [discriminate|]. clear -Hu Hb. code_solver. }
  destruct ((0 <? col)%nat && _); [unfold syntax_error, raise; eauto|].
  apply tokenize_from_doomed; [simpl; lia|exact Hd].
Qed.

(** *** Decimal literals *)

Lemma more_digits_all p ds rest :
  forallb p ds = true -> stops p rest -> more_digits p (ds ++ rest) = (ds, rest).
Proof.
  intros Hds Hrest. induction ds as [|d ds IH]; simpl in *.
  - destruct rest as [|c rest]; [reflexivity|]. simpl.
    destruct Hrest as [-> ->]. reflexivity.
  - apply andb_true_iff in Hds as [-> Hds]. rewrite (IH Hds). reflexivity.
Qed.

Lemma digitpart_all p d ds rest :
  forallb p (d :: ds) = true -> stops p rest ->
  digitpart p ((d :: ds) ++ rest) = Some (d :: ds, rest).
Proof.
  simpl. intros Hds Hrest. apply andb_true_iff in Hds as [-> Hds].
  rewrite (more_digits_all p ds rest Hds Hrest). reflexivity.
Qed.

Lemma lex_number_digit d cs :
  is_digit d = true ->
  match cs with [] => True | x :: _ => is_digit x = true \/ code x = 46%N end ->
  lex_number (d :: cs) = lex_decimal (d :: cs).
Proof.
  intros Hd Hx. unfold lex_number. destruct cs as [|x r]; [reflexivity|].
  destruct (code d =? 48)%N; [|reflexivity].
  assert (((code x =? 120) || (code x =? 88))%N = false
          /\ ((code x =? 111) || (code x =? 79))%N = false
          /\ ((code x =? 98) || (code x =? 66))%N = false) as (-> & -> & ->).
  { destruct Hx as [Hx|Hx]; [|rewrite Hx; repeat split; reflexivity].
    repeat split; code_solver. }
  reflexivity.
Qed.

Lemma tokenize_from_number fuel parenstack c rest t r :
  is_digit c = true -> lex_number (c :: rest) = Ok (t, r) ->
  tokenize_from (S fuel) parenstack (c :: rest)
  = ts ← tokenize_from fuel parenstack r; mret (t :: ts).
Proof.
  intros Hc Hl. cbn [tokenize_from].
  assert (is_blank c = false) as -> by code_solver.
  assert ((code c =? 35)%N = false) as -> by code_solver.
  rewrite Hc, Hl. reflexivity.
Qed.

(** A text that starts with a character of a token starts at column 0. *)
Lemma tokenize_unindented s c cs :
  list_ascii_of_string s = c :: cs -> is_blank c = false ->
  (code c =? 92)%N || (code c <=? 31)%N = false ->
  tokenize s = tokenize_from (S (length (c :: cs))) [] (c :: cs).
Proof.
  intros Hs Hb Hc. unfold tokenize.
  rewrite Hs, (indentation_none _ _ _ Hb), Hc. reflexivity.
Qed.

Lemma lex_decimal_integer d ds :
  forallb is_digit (d :: ds) = true ->
  leading_zero (d :: ds) = false ->
  too_many_digits (length (d :: ds)) = false ->
  lex_decimal (d :: ds) = Ok (NUMBER (CInt (digits_value 10 (d :: ds))), []).
Proof.
  intros Hds Hz Hlen. unfold lex_decimal.
  pose proof (digitpart_all is_digit d ds [] Hds I) as Hdp.
  rewrite app_nil_r in Hdp. rewrite Hdp.
  cbn [default from_option id lex_fraction lex_exponent orb tail].
  cbv beta iota zeta. rewrite Hz, Hlen. reflexivity.
Qed.

Lemma hd_digits_next ds :
  forallb is_digit ds = true ->
  match ds with [] => True | x :: _ => is_digit x = true \/ code x = 46%N end.
Proof.
  destruct ds as [|x r]; [auto|]. simpl. intros Hx.
  apply andb_true_iff in Hx as [Hx _]. auto.
Qed.

(** A run of digits is one NUMBER token holding its decimal value, unless
    it is a number other than zero written with a leading zero, or too
    long. *)
Lemma tokenize_decimal_integer (d : ascii) (ds : list ascii) :
  forallb is_digit (d :: ds) = true ->
  leading_zero (d :: ds) = false ->
  too_many_digits (length (d :: ds)) = false ->
  tokenize (string_of_list_ascii (d :: ds))
  = Ok [NUMBER (CInt (digits_value 10 (d :: ds)))].
Proof.
  intros Hds Hz Hlen.
  assert (is_digit d = true /\ forallb is_digit ds = true) as [Hd Hds'].
  { simpl in Hds. apply andb_true_iff in Hds. exact Hds. }
  rewrite (tokenize_unindented _ d ds
             (list_ascii_of_string_of_list_ascii _));
    [|clear -Hd; code_solver|clear -Hd; code_solver].
  rewrite (tokenize_from_number _ _ d ds
             (NUMBER (CInt (digits_value 10 (d :: ds)))) []);
    [reflexivity|exact Hd|].
  rewrite lex_number_digit; [|exact Hd|exact (hd_digits_next ds Hds')].
  apply lex_decimal_integer; assumption.
Qed.

(** Digits, a point and digits are one NUMBER token holding the nearest
    float. *)
Lemma tokenize_decimal_point (d : ascii) (ip fp : list ascii) :
  forallb is_digit (d :: ip) = true -> forallb is_digit fp = true ->
  tokenize (string_of_list_ascii ((d :: ip) ++ "."%char :: fp))
  = Ok [NUMBER (CFloat (decimal_float ((d :: ip) ++ fp)
                          (- Z.of_nat (length fp))))].
Proof.
  intros Hip Hfp.
  assert (is_digit d = true /\ forallb is_digit ip = true) as [Hd Hip'].
  { simpl in Hip. apply andb_true_iff in Hip. exact Hip. }
  change ((d :: ip) ++ "."%char :: fp) with (d :: ip ++ "."%char :: fp).
  rewrite (tokenize_unindented _ d (ip ++ "."%char :: fp)
             (list_ascii_of_string_of_list_ascii _));
    [|clear -Hd; code_solver|clear -Hd; code_solver].
  rewrite (tokenize_from_number _ _ d (ip ++ "."%char :: fp)
             (NUMBER (CFloat (decimal_float ((d :: ip) ++ fp)
                                (- Z.of_nat (length fp))))) []);
    [reflexivity|exact Hd|].
  rewrite lex_number_digit; [|exact Hd|].
  2:{ destruct ip as [|x r]; [right; reflexivity|]. left. simpl in Hip'.
      apply andb_true_iff in Hip' as [Hx _]. exact Hx. }
  unfold lex_decimal.
  change (d :: ip ++ "."%char :: fp) with ((d :: ip) ++ "."%char :: fp).
  rewrite (digitpart_all is_digit d ip ("."%char :: fp) Hip)
    by (split; reflexivity).
  cbn [default from_option id]. cbv beta iota zeta.
  assert (lex_fraction ("."%char :: fp) = (fp, true, [])) as ->.
  { unfold lex_fraction. change (code "." =? 46)%N with true. cbv iota.
    destruct fp as [|f fp']; [reflexivity|].
    pose proof (digitpart_all is_digit f fp' [] Hfp I) as Hdp.
    rewrite app_nil_r in Hdp. rewrite Hdp. reflexivity. }
  cbn [lex_exponent orb tail]. cbv beta iota zeta.
  reflexivity.
Qed.


End Lexer.

(** C10, as amended.  Numeric tokens never carry a sign, and they are
    recognised in all of Python's notations: a run of digits is one token
    with its decimal value (unless it has a superfluous leading zero or more
    digits than the configured limit), digits with a single point and optional
    fractional digits are one token with the nearest float (a second point
    starts another number, and the expression does not parse), and so are
    exponent and hexadecimal forms, so that [1e5] evaluates to 100000.0 and
    [0x10] to 16.  An input in which a character that starts no token ([$],
    [?] or a backquote) stands, with nothing before it but characters of
    numbers, names, operators and blanks, is refused by the tokenizer with a
    SyntaxError, and [safe_eval_expr] fails on every input the tokenizer
    refuses. *)
Theorem numeric_literals :
  (forall (L : Libm) d ds,
     forallb is_digit (d :: ds) = true ->
     leading_zero (d :: ds) = false ->
     too_many_digits (length (d :: ds)) = false ->
     tokenize (string_of_list_ascii (d :: ds))
     = Ok [NUMBER (CInt (digits_value 10 (d :: ds)))])
  /\ (forall (L : Libm) d ip fp,
        forallb is_digit (d :: ip) = true -> forallb is_digit fp = true ->
        tokenize (string_of_list_ascii ((d :: ip) ++ "."%char :: fp))
        = Ok [NUMBER (CFloat (decimal_float ((d :: ip) ++ fp)
                                (- Z.of_nat (length fp))))])
  /\ (forall L : Libm, tokenize "-5" = Ok [OP "-"; NUMBER (CInt 5)])
  /\ (forall L : Libm,
        tokenize "1.5.25" = Ok [NUMBER (CFloat 1.5); NUMBER (CFloat 0.25)])
  /\ (forall L : Libm, tokenize "1e5" = Ok [NUMBER (CFloat 100000)])
  /\ (forall L : Libm, tokenize "0x10" = Ok [NUMBER (CInt 16)])
  /\ (forall L : Libm, safe_eval_expr "1e5" = Ok (VFloat 100000))
  /\ (forall L : Libm, safe_eval_expr "0x10" = Ok (VInt 16))
  /\ (forall L : Libm,
        exists msg, safe_eval_expr "1.5.25" = Raise (Exn ValueError msg))
  /\ (forall (L : Libm) s,
        doomed (list_ascii_of_string s) = true ->
        exists msg, tokenize s = Raise (Exn SyntaxError msg))
  /\ (forall (L : Libm) s msg,
        tokenize s = Raise (Exn SyntaxError msg) ->
        exists msg', safe_eval_expr s = Raise (Exn ValueError msg')).
Proof.
  split; [intros L; exact tokenize_decimal_integer|].
  split; [intros L; exact tokenize_decimal_point|].
  do 6 (split; [intros L; vm_compute; reflexivity|]).
  split; [intros L; eexists; vm_compute; reflexivity|].
  split; [intros L; exact tokenize_doomed|].
  intros L s msg He. apply safe_eval_expr_with_fails.
  intros t Ht. unfold ast_parse in Ht. rewrite He in Ht. discriminate.
Qed.

(** C10, the claim as stated fails: the exponent form [1e5] and the
    hexadecimal form [0x10] are each lexed as one number, and evaluated. *)
Lemma exponent_and_hex_literals :
  (forall L : Libm, tokenize "1e5" = Ok [NUMBER (CFloat 100000)])
  /\ (forall L : Libm, tokenize "0x10" = Ok [NUMBER (CInt 16)])
  /\ (forall L : Libm, safe_eval_expr "1e5" = Ok (VFloat 100000))
  /\ (forall L : Libm, safe_eval_expr "0x10" = Ok (VInt 16)).
Proof. repeat split; intros L; vm_compute; reflexivity. Qed.

(** ** C4: what an evaluation returns and what it writes *)








Lemma is_hexdigit_ends_literal c :
  is_hexdigit c = true -> ends_literal c = true.
Proof. unfold ends_literal. intros ->. reflexivity. Qed.




Section Quiet.
Context `{Libm}.











End Quiet.




(** * Further properties of the session and of the evaluator *)

(** ** Slices of strings *)

Lemma append_String (x : ascii) (a b : string) :
  String x a +:+ b = String x (a +:+ b).
Proof. reflexivity. Qed.

Lemma length_append (a b : string) :
  String.length (a +:+ b) = (String.length a + String.length b)%nat.
Proof.
  induction a as [|x a IH]; [reflexivity|].
  rewrite !append_String; simpl; rewrite IH; reflexivity.
Qed.

Lemma append_assoc (a b c : string) : (a +:+ b) +:+ c = a +:+ (b +:+ c).
Proof.
  induction a as [|x a IH]; [reflexivity|].
  rewrite !append_String; simpl; rewrite IH; reflexivity.
Qed.

Lemma append_nil_r (a : string) : a +:+ "" = a.
Proof.
  induction a as [|x a IH]; [reflexivity|].
  rewrite !append_String; simpl; rewrite IH; reflexivity.
Qed.

Lemma str_take_drop (n : nat) (s : string) : str_take n s +:+ str_drop n s = s.
Proof.
  revert s. induction n as [|n IH]; intros [|x s]; simpl; try reflexivity.
  rewrite append_String, IH. reflexivity.
Qed.

Lemma length_str_take (n : nat) (s : string) :
  (n <= String.length s)%nat -> String.length (str_take n s) = n.
Proof.
  revert s. induction n as [|n IH]; intros [|x s]; simpl; intros Hn;
    try reflexivity; try lia.
  rewrite IH by lia. reflexivity.
Qed.

Lemma str_take_append (a b : string) (n : nat) :
  str_take (String.length a + n) (a +:+ b) = a +:+ str_take n b.
Proof.
  induction a as [|x a IH]; [reflexivity|].
  rewrite !append_String; simpl; rewrite IH; reflexivity.
Qed.

Lemma str_drop_append (a b : string) (n : nat) :
  str_drop (String.length a + n) (a +:+ b) = str_drop n b.
Proof.
  induction a as [|x a IH]; [reflexivity|].
  rewrite !append_String; simpl; exact IH.
Qed.

Lemma str_take_all (s : string) : str_take (String.length s) s = s.
Proof. induction s as [|x s IH]; simpl; [reflexivity|]. rewrite IH. reflexivity. Qed.

Lemma str_drop_all (s : string) : str_drop (String.length s) s = "".
Proof. induction s as [|x s IH]; simpl; [reflexivity|]. exact IH. Qed.

Lemma str_take_0 (s : string) : str_take 0 s = "".
Proof. destruct s; reflexivity. Qed.

Lemma str_take_take (m n : nat) (s : string) :
  (m <= n)%nat -> str_take m (str_take n s) = str_take m s.
Proof.
  revert n s. induction m as [|m IH]; intros n s Hmn.
  - rewrite !str_take_0. reflexivity.
  - destruct n as [|n]; [lia|]. destruct s as [|x s]; simpl; [reflexivity|].
    rewrite IH by lia. reflexivity.
Qed.

Lemma str_drop_0 (s : string) : str_drop 0 s = s.
Proof. destruct s; reflexivity. Qed.

Lemma str_take_append_le (a b : string) (m : nat) :
  (m <= String.length a)%nat -> str_take m (a +:+ b) = str_take m a.
Proof.
  revert a. induction m as [|m IH]; intros a Hm.
  - rewrite !str_take_0. reflexivity.
  - destruct a as [|x a]; simpl in Hm; [lia|].
    rewrite append_String. simpl. rewrite IH by lia. reflexivity.
Qed.

Lemma str_drop_append_length (a b : string) :
  str_drop (String.length a) (a +:+ b) = b.
Proof.
  rewrite <- (Nat.add_0_r (String.length a)), str_drop_append.
  apply str_drop_0.
Qed.

Lemma length_str_drop (n : nat) (s : string) :
  String.length (str_drop n s) = (String.length s - n)%nat.
Proof.
  revert s. induction n as [|n IH]; intros [|x s]; simpl; try reflexivity.
  apply IH.
Qed.

(** ** The entry: typing and deleting *)

(** A session state is its seven fields. *)
Lemma Calculator_eq (c c' : Calculator) :
  display_var c = display_var c' -> cursor c = cursor c' ->
  result_shown c = result_shown c' -> history c = history c' ->
  last_answer c = last_answer c' -> history_list c = history_list c' ->
  clipboard c = clipboard c' -> c = c'.
Proof. destruct c, c'; simpl; intros; subst; reflexivity. Qed.

Lemma insert_text_splices txt c :
  splices txt c = true -> (cursor c <= String.length (display_var c))%nat ->
  insert_text txt c
  = mkCalculator
      (str_take (cursor c) (display_var c) +:+ txt
         +:+ str_drop (cursor c) (display_var c))
      (cursor c + String.length txt) (result_shown c) (history c)
      (last_answer c) (history_list c) (clipboard c).
Proof.
  unfold splices, starts_afresh, insert_text. intros Hs Hc. apply negb_true_iff in Hs.
  rewrite Hs. apply Calculator_eq; try reflexivity.
  unfold icursor, set_display. cbn [cursor display_var].
  rewrite !length_append, length_str_take by exact Hc.
  pose proof (str_take_drop (cursor c) (display_var c)) as Htd.
  apply (f_equal String.length) in Htd.
  rewrite length_append, length_str_take in Htd by exact Hc. lia.
Qed.

(** BackSpace deletes the character before the cursor. *)
Lemma backspace_deletes c :
  (0 < cursor c <= String.length (display_var c))%nat ->
  backspace c
  = mkCalculator
      (str_take (cursor c - 1) (display_var c)
         +:+ str_drop (cursor c) (display_var c))
      (cursor c - 1) (result_shown c) (history c) (last_answer c)
      (history_list c) (clipboard c).
Proof.
  intros Hc. unfold backspace.
  assert ((0 <? cursor c)%nat = true) as -> by (apply Nat.ltb_lt; lia).
  apply Calculator_eq; try reflexivity.
  unfold icursor, set_display. cbn [cursor display_var].
  rewrite length_append, length_str_take, length_str_drop by lia. lia.
Qed.

(** [n] presses of BackSpace delete the [n] characters before the cursor. *)
Lemma backspace_iter n c :
  (n <= cursor c <= String.length (display_var c))%nat ->
  Nat.iter n backspace c
  = mkCalculator
      (str_take (cursor c - n) (display_var c)
         +:+ str_drop (cursor c) (display_var c))
      (cursor c - n) (result_shown c) (history c) (last_answer c)
      (history_list c) (clipboard c).
Proof.
  induction n as [|n IH]; intros Hn.
  - simpl. rewrite Nat.sub_0_r, str_take_drop. destruct c; reflexivity.
  - simpl. rewrite IH by lia.
    set (p := cursor c) in *. set (d := display_var c) in *.
    assert (String.length (str_take (p - n) d) = (p - n)%nat) as Hlen
      by (apply length_str_take; lia).
    rewrite backspace_deletes; cbn [cursor display_var result_shown history
      last_answer history_list clipboard].
    2:{ rewrite length_append, Hlen. lia. }
    apply Calculator_eq; cbn [cursor display_var result_shown history
      last_answer history_list clipboard]; try reflexivity; [|lia].
    rewrite str_take_append_le by lia.
    rewrite str_take_take by lia.
    rewrite <- Hlen at 2. rewrite str_drop_append_length.
    f_equal. f_equal. lia.
Qed.

(** X1.  BackSpace undoes typing: after [insert_text] has put a text in at
    the cursor, as many presses of BackSpace as the text has characters give
    back the very state the session was in. *)
Theorem backspace_undoes_insert_text (txt : string) (c : Calculator) :
  splices txt c = true ->
  (cursor c <= String.length (display_var c))%nat ->
  Nat.iter (String.length txt) backspace (insert_text txt c) = c.
Proof.
  intros Hs Hc. rewrite (insert_text_splices txt c Hs Hc).
  set (p := cursor c) in *. set (d := display_var c) in *.
  assert (String.length (str_take p d) = p) as Hlen
    by (apply length_str_take; exact Hc).
  rewrite backspace_iter; cbn [cursor display_var result_shown history
    last_answer history_list clipboard].
  2:{ rewrite !length_append, Hlen, length_str_drop. lia. }
  apply Calculator_eq; cbn [cursor display_var result_shown history
    last_answer history_list clipboard]; try reflexivity; [|lia].
  replace (p + String.length txt - String.length txt)%nat with p by lia.
  rewrite str_take_append_le by lia. rewrite <- Hlen at 1.
  rewrite str_take_all.
  rewrite <- append_assoc.
  replace (p + String.length txt)%nat
    with (String.length (str_take p d +:+ txt)) by (rewrite length_append; lia).
  rewrite str_drop_append_length. apply str_take_drop.
Qed.

(** The hypotheses of [backspace_undoes_insert_text] hold of typing [7+]
    into a fresh session. *)
Lemma backspace_undoes_insert_text_witness :
  splices "7+" init = true
  /\ (cursor init <= String.length (display_var init))%nat
  /\ Nat.iter (String.length "7+") backspace (insert_text "7+" init) = init.
Proof.
  assert (splices "7+" init = true) as Hs by reflexivity.
  assert (cursor init <= String.length (display_var init))%nat as Hc
    by (simpl; lia).
  split; [exact Hs|]. split; [exact Hc|].
  exact (backspace_undoes_insert_text "7+" init Hs Hc).
Defined.

(** X2.  Typing composes: while no result is shown, typing [a] and then [b]
    is typing [a] followed by [b] at once. *)
Theorem insert_text_composes (a b : string) (c : Calculator) :
  result_shown c = false ->
  (cursor c <= String.length (display_var c))%nat ->
  insert_text b (insert_text a c) = insert_text (a +:+ b) c.
Proof.
  intros Hr Hc.
  assert (forall t, splices t c = true) as Hs
    by (intros t; unfold splices; rewrite Hr; reflexivity).
  rewrite (insert_text_splices a c (Hs a) Hc).
  rewrite (insert_text_splices (a +:+ b) c (Hs _) Hc).
  set (p := cursor c) in *. set (d := display_var c) in *.
  assert (String.length (str_take p d) = p) as Hlen
    by (apply length_str_take; exact Hc).
  rewrite insert_text_splices; cbn [cursor display_var result_shown history
    last_answer history_list clipboard].
  2:{ unfold splices. cbn [result_shown]. rewrite Hr. reflexivity. }
  2:{ rewrite !length_append, Hlen, length_str_drop. lia. }
  apply Calculator_eq; cbn [cursor display_var result_shown history
    last_answer history_list clipboard]; try reflexivity.
  - rewrite <- (append_assoc (str_take p d) a).
    replace (p + String.length a)%nat
      with (String.length (str_take p d +:+ a) + 0)%nat
      by (rewrite length_append; lia).
    rewrite str_take_append, str_drop_append, str_take_0, str_drop_0,
      append_nil_r.
    rewrite !append_assoc. reflexivity.
  - rewrite length_append. lia.
Qed.

(** The hypotheses of [insert_text_composes] hold of a fresh session. *)
Lemma insert_text_composes_witness :
  result_shown init = false
  /\ (cursor init <= String.length (display_var init))%nat
  /\ insert_text "2" (insert_text "1" init) = insert_text "12" init.
Proof.
  assert (cursor init <= String.length (display_var init))%nat as Hc
    by (simpl; lia).
  split; [reflexivity|]. split; [exact Hc|].
  exact (insert_text_composes "1" "2" init eq_refl Hc).
Defined.

(** ** After a result *)

Section AfterResult.
Context `{Libm}.
Variable parse : string -> result node.

(** What [evaluate] shows, where it puts the cursor, and the flag. *)
Lemma evaluate_shows c :
  strip (display_var c) <> "" ->
  let r := match result_text parse (strip (display_var c)) with
           | Ok text => text
           | Raise _ => "Error"
           end in
  display_var (evaluate parse c) = r
  /\ cursor (evaluate parse c) = Nat.min (cursor c) (String.length r)
  /\ result_shown (evaluate parse c) = true.
Proof.
  intros He. cbv zeta. unfold evaluate.
  apply String.eqb_neq in He. rewrite He.
  destruct (result_text parse _) as [text|e]; [|repeat split].
  unfold _add_history. destruct (bool_decide _); repeat split.
Qed.

(** X3.  After an evaluation of an entry that is not blank, a digit, [(] or
    [.] replaces what is shown, a result or [Error] alike, and any other text
    is put into it, at the place of the cursor before the evaluation or at
    the end when that place is beyond; the flag stays set in that case. *)
Theorem key_after_result (txt : string) (c : Calculator) :
  strip (display_var c) <> "" ->
  let c1 := evaluate parse c in
  let r := display_var c1 in
  display_var (insert_text txt c1)
  = (if starts_afresh txt then txt
     else splice txt (Nat.min (cursor c) (String.length r)) r)
  /\ result_shown (insert_text txt c1) = negb (starts_afresh txt).
Proof.
  intros He. cbv zeta.
  destruct (evaluate_shows c He) as (Hd & Hp & Hr). cbv zeta in *.
  unfold insert_text. fold (starts_afresh txt). rewrite Hr. simpl andb.
  destruct (starts_afresh txt); [split; reflexivity|].
  cbn [display_var icursor set_display result_shown negb].
  rewrite Hp, Hd. split; [reflexivity|exact Hr].
Qed.

(** X4.  The Ans key right after a result, with the cursor at the end: a
    result made of digits only is shown as it is; any other result, a
    negative or a fractional number, is doubled. *)
Theorem answer_after_result (c : Calculator) (text : string) :
  strip (display_var c) <> "" ->
  result_text parse (strip (display_var c)) = Ok text ->
  (String.length text <= cursor c)%nat ->
  display_var (insert_last_answer (evaluate parse c))
  = if starts_afresh text then text else text +:+ text.
Proof.
  intros He Ht Hc.
  destruct (evaluate_shows c He) as (Hd & Hp & Hr). cbv zeta in *.
  rewrite Ht in Hd, Hp.
  assert (last_answer (evaluate parse c) = text) as Ha.
  { unfold evaluate. apply String.eqb_neq in He. rewrite He, Ht.
    unfold _add_history. destruct (bool_decide _); reflexivity. }
  unfold insert_last_answer. rewrite Ha.
  destruct (String.eqb text "") eqn:Hte.
  { rewrite Hd. apply String.eqb_eq in Hte. rewrite Hte. reflexivity. }
  unfold insert_text. fold (starts_afresh text). rewrite Hr. simpl andb.
  destruct (starts_afresh text); [reflexivity|].
  cbn [display_var icursor set_display]. rewrite Hp, Hd.
  rewrite Nat.min_r by exact Hc.
  rewrite str_take_all, str_drop_all, append_nil_r. reflexivity.
Qed.

(** An event other than an evaluation leaves the history, the listbox and
    the last answer as they are. *)
Lemma handle_keeps_record (ev : event) (c : Calculator) :
  ev <> KeyReturn -> ev <> ButtonClick "=" ->
  history (handle parse ev c) = history c
  /\ history_list (handle parse ev c) = history_list c
  /\ last_answer (handle parse ev c) = last_answer c.
Proof.
  intros Hret Heq.
  destruct ev as [key|txt| | | | | |sel|text pos]; try congruence;
    cbn [handle]; unfold on_button_click, clear, backspace, toggle_sign,
      insert_last_answer, copy_result, on_history_select, insert_text.
  - destruct (String.eqb key "=") eqn:Hk.
    { apply String.eqb_eq in Hk. congruence. }
    repeat match goal with
           | |- context [if ?b then _ else _] => destruct b
           | |- context [match ?m with Ok _ => _ | Raise _ => _ end] =>
               destruct m
           end; repeat split.
  - destruct (_ && _); repeat split.
  - destruct (_ <? _)%nat; repeat split.
  - repeat split.
  - destruct (String.eqb _ _); [repeat split|].
    destruct (_ && _); repeat split.
  - repeat split.
  - destruct sel; [repeat split|].
    destruct (split_once _ _) as [[? ?]|]; repeat split.
  - repeat split.
Qed.

(** X5.  The history, the listbox and the last answer change by an
    evaluation only (the Return key and the [=] button), and the clipboard
    by the Copy button only. *)
Theorem only_evaluation_records (ev : event) (c : Calculator) :
  (ev <> KeyReturn -> ev <> ButtonClick "=" ->
   history (handle parse ev c) = history c
   /\ history_list (handle parse ev c) = history_list c
   /\ last_answer (handle parse ev c) = last_answer c)
  /\ (ev <> CopyButton -> clipboard (handle parse ev c) = clipboard c).
Proof.
  split; [apply handle_keeps_record|].
  intros Hcopy.
  destruct ev as [key|txt| | | | | |sel|text pos]; try congruence;
    cbn [handle]; unfold on_button_click, evaluate, _add_history, clear,
      backspace, toggle_sign, insert_last_answer, on_history_select,
      insert_text;
    repeat match goal with
           | |- context [if ?b then _ else _] => destruct b
           | |- context [match ?m with Ok _ => _ | Raise _ => _ end] =>
               destruct m
           | |- context [match ?m with [] => _ | _ :: _ => _ end] =>
               destruct m
           | |- context [match ?m with Some _ => _ | None => _ end] =>
               destruct m as [[? ?]|]
           end; reflexivity.
Qed.

(** An event is an evaluation, or leaves the history, the listbox and the
    last answer as they are. *)
Lemma handle_cases (ev : event) (c : Calculator) :
  handle parse ev c = evaluate parse c
  \/ (history (handle parse ev c) = history c
      /\ history_list (handle parse ev c) = history_list c
      /\ last_answer (handle parse ev c) = last_answer c).
Proof.
  destruct ev as [key|txt| | | | | |sel|text pos];
    try (right; apply handle_keeps_record; congruence); [|left; reflexivity].
  destruct (String.eqb key "=") eqn:Hk.
  - apply String.eqb_eq in Hk as ->. left. reflexivity.
  - right. apply handle_keeps_record; [congruence|].
    intros [= ->]. rewrite String.eqb_refl in Hk. discriminate.
Qed.

(** What an evaluation records: nothing, or the entry of the expression and
    its result, which is the last answer from then on. *)
Lemma evaluate_cases (c : Calculator) :
  (history (evaluate parse c) = history c
   /\ history_list (evaluate parse c) = history_list c
   /\ last_answer (evaluate parse c) = last_answer c)
  \/ (exists text,
        strip (display_var c) <> ""
        /\ result_text parse (strip (display_var c)) = Ok text
        /\ history (evaluate parse c)
           = add_entry (strip (display_var c) +:+ " = " +:+ text) (history c)
        /\ last_answer (evaluate parse c) = text).
Proof.
  unfold evaluate. destruct (String.eqb _ _) eqn:He; [left; repeat split|].
  apply String.eqb_neq in He.
  destruct (result_text parse _) as [text|e] eqn:Ht; [|left; repeat split].
  right. exists text. split; [exact He|]. split; [reflexivity|].
  rewrite history_add_entry. split; [reflexivity|].
  unfold _add_history. destruct (bool_decide _); reflexivity.
Qed.

(** X6.  Copy right after an evaluation of an entry that is not blank
    copies the result, and after a failed one the answer of before: the word
    [Error] is never copied. *)
Theorem copy_after_evaluation (c : Calculator) :
  strip (display_var c) <> "" ->
  clipboard (copy_result (evaluate parse c))
  = match result_text parse (strip (display_var c)) with
    | Ok text => text
    | Raise _ => last_answer c
    end.
Proof.
  intros He. unfold copy_result. cbn [clipboard set_clipboard].
  destruct (evaluate_cases c) as [(_ & _ & Ha)|(text & _ & Ht & _ & Ha)].
  - rewrite Ha. unfold evaluate in Ha. apply String.eqb_neq in He.
    rewrite He in Ha.
    destruct (result_text parse _) as [text|e]; [|reflexivity].
    rewrite <- Ha. unfold _add_history. destruct (bool_decide _); reflexivity.
  - rewrite Ha, Ht. reflexivity.
Qed.

End AfterResult.

(** The hypothesis of [key_after_result] holds of the entry [1+1]. *)
Lemma key_after_result_witness :
  exists (txt : string) (c : Calculator), forall L : Libm,
    strip (display_var c) <> ""
    /\ display_var (insert_text txt (evaluate ast_parse c)) = txt.
Proof.
  exists "7", (set_display "1+1" init). intros L.
  assert (strip (display_var (set_display "1+1" init)) <> "") as Hne
    by (vm_compute; discriminate).
  split; [exact Hne|].
  exact (proj1 (key_after_result ast_parse "7" _ Hne)).
Defined.

(** The hypotheses of [answer_after_result] hold of the entry [0-3], whose
    result [-3] the Ans key doubles. *)
Lemma answer_after_result_witness :
  exists (c : Calculator) (text : string), forall L : Libm,
    strip (display_var c) <> ""
    /\ result_text ast_parse (strip (display_var c)) = Ok text
    /\ (String.length text <= cursor c)%nat
    /\ display_var (insert_last_answer (evaluate ast_parse c)) = "-3-3".
Proof.
  exists (icursor 3 (set_display "0-3" init)), "-3". intros L.
  assert (strip (display_var (icursor 3 (set_display "0-3" init))) <> "")
    as Hne by (vm_compute; discriminate).
  assert (result_text ast_parse
            (strip (display_var (icursor 3 (set_display "0-3" init))))
          = Ok "-3") as Ht by (vm_compute; reflexivity).
  assert (String.length "-3" <= cursor (icursor 3 (set_display "0-3" init)))%nat
    as Hc by (simpl; lia).
  split; [exact Hne|]. split; [exact Ht|]. split; [exact Hc|].
  exact (answer_after_result ast_parse _ "-3" Hne Ht Hc).
Defined.

(** The hypothesis of [copy_after_evaluation] holds of the entry [1/0]. *)
Lemma copy_after_evaluation_witness :
  exists c : Calculator, forall L : Libm,
    strip (display_var c) <> ""
    /\ clipboard (copy_result (evaluate ast_parse c)) = last_answer c.
Proof.
  exists (set_display "1/0" init). intros L.
  assert (strip (display_var (set_display "1/0" init)) <> "") as Hne
    by (vm_compute; discriminate).
  split; [exact Hne|].
  exact (copy_after_evaluation ast_parse _ Hne).
Defined.

(** ** [strip] *)

Lemma list_of_rev_app (s1 s2 : string) :
  list_ascii_of_string (String.rev_app s1 s2)
  = reverse (list_ascii_of_string s1) ++ list_ascii_of_string s2.
Proof.
  revert s2. induction s1 as [|x s1 IH]; intros s2; simpl; [reflexivity|].
  rewrite IH, reverse_cons, <- app_assoc. reflexivity.
Qed.

Lemma list_of_rev (s : string) :
  list_ascii_of_string (String.rev s) = reverse (list_ascii_of_string s).
Proof. unfold String.rev. rewrite list_of_rev_app, app_nil_r. reflexivity. Qed.

Lemma list_of_lstrip (s : string) :
  list_ascii_of_string (lstrip s) = lstrip_list (list_ascii_of_string s).
Proof.
  induction s as [|x s IH]; simpl; [reflexivity|].
  destruct (is_whitespace x); [exact IH|reflexivity].
Qed.

Lemma list_of_strip (s : string) :
  list_ascii_of_string (strip s)
  = reverse (lstrip_list (reverse (lstrip_list (list_ascii_of_string s)))).
Proof.
  unfold strip. rewrite list_of_rev, list_of_lstrip, list_of_rev, list_of_lstrip.
  reflexivity.
Qed.

Lemma list_ascii_of_string_inj (s t : string) :
  list_ascii_of_string s = list_ascii_of_string t -> s = t.
Proof.
  intros Hl. rewrite <- (string_of_list_ascii_of_string s),
    <- (string_of_list_ascii_of_string t), Hl. reflexivity.
Qed.

Lemma lstrip_list_head (l : list ascii) :
  lstrip_list l = []
  \/ exists x m, lstrip_list l = x :: m /\ is_whitespace x = false.
Proof.
  induction l as [|c l IH]; simpl; [auto|].
  destruct (is_whitespace c) eqn:Hc; [exact IH|eauto].
Qed.

Lemma lstrip_list_snoc (a : list ascii) (x : ascii) :
  is_whitespace x = false -> lstrip_list (a ++ [x]) = lstrip_list a ++ [x].
Proof.
  intros Hx. induction a as [|c a IH]; simpl; [rewrite Hx; reflexivity|].
  destruct (is_whitespace c); [exact IH|reflexivity].
Qed.

Lemma lstrip_list_idemp (l : list ascii) :
  lstrip_list (lstrip_list l) = lstrip_list l.
Proof.
  destruct (lstrip_list_head l) as [->|(x & m & -> & Hx)]; [reflexivity|].
  simpl. rewrite Hx. reflexivity.
Qed.

(** What [strip] leaves starts with no white space. *)
Lemma lstrip_list_strip (t : list ascii) :
  lstrip_list t = t ->
  lstrip_list (reverse (lstrip_list (reverse t)))
  = reverse (lstrip_list (reverse t)).
Proof.
  intros Ht. destruct (lstrip_list_head t) as [Hn|(x & m & Hxm & Hx)];
    rewrite Ht in *; subst t; [reflexivity|].
  rewrite reverse_cons, (lstrip_list_snoc _ _ Hx), reverse_snoc.
  simpl. rewrite Hx. reflexivity.
Qed.

(** [strip] is idempotent. *)
Lemma strip_idemp (s : string) : strip (strip s) = strip s.
Proof.
  apply list_ascii_of_string_inj. rewrite (list_of_strip (strip s)).
  rewrite list_of_strip.
  set (t := lstrip_list (list_ascii_of_string s)).
  rewrite (lstrip_list_strip t) by apply lstrip_list_idemp.
  rewrite reverse_involutive, lstrip_list_idemp. reflexivity.
Qed.

(** A text that neither starts nor ends with white space is its own
    [strip]. *)
Lemma strip_fixed (s : string) :
  lstrip_list (list_ascii_of_string s) = list_ascii_of_string s ->
  lstrip_list (reverse (list_ascii_of_string s))
  = reverse (list_ascii_of_string s) ->
  strip s = s.
Proof.
  intros H1 H2. apply list_ascii_of_string_inj.
  rewrite list_of_strip, H1, H2. apply reverse_involutive.
Qed.

(** ** Results that are whole numbers *)

Lemma lstrip_list_fixed (l : list ascii) :
  Forall (fun c => is_whitespace c = false) l -> lstrip_list l = l.
Proof. intros [|c l' Hc _]; [reflexivity|]. simpl. rewrite Hc. reflexivity. Qed.

Lemma strip_no_whitespace (s : string) :
  Forall (fun c => is_whitespace c = false) (list_ascii_of_string s) ->
  strip s = s.
Proof.
  intros Hs. apply strip_fixed; apply lstrip_list_fixed; [exact Hs|].
  apply Forall_reverse. exact Hs.
Qed.

(** ** What the history holds *)

Section Records.
Context `{Libm}.
Variable parse : string -> result node.

Lemma calculation_add_entry (entry : string) (h : list string) :
  calculation parse entry -> Forall (calculation parse) h ->
  Forall (calculation parse) (add_entry entry h).
Proof.
  intros He Hh. unfold add_entry. destruct (bool_decide _); [exact Hh|].
  assert (Forall (calculation parse) (h ++ [entry])) as Hall
    by (apply Forall_app; split; [exact Hh|repeat constructor; exact He]).
  destruct (_ <? _)%nat; [|exact Hall].
  destruct (h ++ [entry]) as [|x l]; [constructor|].
  apply Forall_cons in Hall as [_ Hl]. exact Hl.
Qed.

Lemma last_add_entry (entry : string) (h : list string) :
  last (add_entry entry h) = Some entry.
Proof.
  unfold add_entry. destruct (bool_decide _) eqn:Hd.
  - apply bool_decide_eq_true in Hd. exact Hd.
  - destruct (_ <? _)%nat eqn:Hlen.
    + apply last_tail_snoc. intros ->. discriminate.
    + apply last_snoc.
Qed.

Lemma reachable_calculations (c : Calculator) :
  reachable parse c -> Forall (calculation parse) (history c).
Proof.
  induction 1 as [|ev c Hc IH]; [constructor|].
  destruct (handle_cases parse ev c) as [->|(-> & _)]; [|exact IH].
  destruct (evaluate_cases parse c) as [(-> & _)|(text & He & Ht & -> & _)];
    [exact IH|].
  apply calculation_add_entry; [|exact IH].
  exists (strip (display_var c)), text. repeat split; try assumption.
  apply strip_idemp.
Qed.

Lemma reachable_answer_inv (c : Calculator) :
  reachable parse c -> answer_inv c.
Proof.
  induction 1 as [|ev c Hc IH]; [left; split; reflexivity|].
  destruct (handle_cases parse ev c) as [->|(Hh & _ & Ha)].
  - destruct (evaluate_cases parse c) as [(Hh & _ & Ha)|(text & He & Ht & Hh & Ha)].
    + unfold answer_inv. rewrite Hh, Ha. exact IH.
    + right. exists (strip (display_var c)). rewrite Hh, Ha.
      apply last_add_entry.
  - unfold answer_inv. rewrite Hh, Ha. exact IH.
Qed.

(** The lines of the listbox are entries of the history. *)
Lemma history_inv_lines (P : string -> Prop) (c : Calculator) :
  history_inv c -> Forall P (history c) -> Forall P (history_list c).
Proof.
  intros [_ ->] Hh. apply Forall_reverse. unfold last_n.
  apply Forall_drop. exact Hh.
Qed.

(** An entry whose expression has no equals sign is cut where the expression
    ends. *)
Lemma split_once_entry (expr text : string) :
  has_equals expr = false ->
  split_once " = " (expr +:+ " = " +:+ text) = Some (expr, text).
Proof.
  unfold has_equals. induction expr as [|x e IH]; intros He.
  - destruct text; reflexivity.
  - simpl in He. apply orb_false_iff in He as [Hx He].
    rewrite append_String. cbn [split_once].
    assert (String.prefix " = " (String x (e +:+ " = " +:+ text)) = false)
      as ->.
    { cbn [String.prefix]. destruct (ascii_dec " " x) as [<-|]; [|reflexivity].
      destruct e as [|y e']; [reflexivity|].
      rewrite append_String. cbn [String.prefix].
      destruct (ascii_dec "=" y) as [<-|]; [|reflexivity].
      simpl in He. discriminate. }
    rewrite (IH He). reflexivity.
Qed.

Lemma reachable_lines (c : Calculator) :
  reachable parse c -> Forall (calculation parse) (history_list c).
Proof.
  intros Hc. apply history_inv_lines.
  - apply reachable_history_inv with parse. exact Hc.
  - apply reachable_calculations. exact Hc.
Qed.

(** X7.  In every state a session can reach, every entry of the history,
    and so every line of the listbox, records a calculation: an expression
    that is not empty and has no white space around it, and the text its
    value is shown as.  A failed evaluation never enters the history. *)
Theorem history_holds_calculations (c : Calculator) :
  reachable parse c ->
  Forall (calculation parse) (history c)
  /\ Forall (calculation parse) (history_list c).
Proof.
  intros Hc. split; [apply reachable_calculations|apply reachable_lines];
    exact Hc.
Qed.

(** X8.  In every state a session can reach, the last answer is the result
    of the newest history entry, which is the top line of the listbox; or the
    history, the listbox and the last answer are all empty. *)
Theorem last_answer_is_newest_result (c : Calculator) :
  reachable parse c ->
  (history c = [] /\ history_list c = [] /\ last_answer c = "")
  \/ exists expr,
       history_list c !! 0%nat = Some (expr +:+ " = " +:+ last_answer c)
       /\ last (history c) = Some (expr +:+ " = " +:+ last_answer c).
Proof.
  intros Hc. pose proof (reachable_history_inv parse c Hc) as Hinv.
  destruct (reachable_answer_inv c Hc) as [[Hh Ha]|[expr Hl]].
  - left. split; [exact Hh|]. split; [|exact Ha].
    destruct Hinv as [_ ->]. rewrite Hh. reflexivity.
  - right. exists expr. rewrite (history_inv_top c Hinv). auto.
Qed.

(** X9.  In every state a session can reach, a line of the listbox whose
    expression has no equals sign is recalled to that expression, and
    evaluating it again shows the result the line records. *)
Theorem recall_restores (c : Calculator) (idx : nat) (entry : string) :
  reachable parse c ->
  history_list c !! idx = Some entry ->
  exists expr text,
    entry = expr +:+ " = " +:+ text
    /\ (has_equals expr = false ->
        let c' := on_history_select [idx] c in
        display_var c' = expr
        /\ display_var (evaluate parse c') = text).
Proof.
  intros Hc Hidx.
  pose proof (reachable_lines c Hc) as Hl.
  rewrite Forall_lookup in Hl.
  destruct (Hl idx entry Hidx) as (expr & text & -> & Hne & Hs & Ht).
  exists expr, text. split; [reflexivity|]. intros Heq. cbv zeta.
  unfold on_history_select. rewrite Hidx. cbn [default from_option id].
  rewrite (split_once_entry expr text Heq).
  split; [reflexivity|].
  assert (strip (display_var (set_display expr c)) <> "") as Hne'
    by (cbn [display_var set_display]; rewrite Hs; exact Hne).
  destruct (evaluate_shows parse _ Hne') as [-> _].
  cbn [display_var set_display]. rewrite Hs, Ht. reflexivity.
Qed.

End Records.

(** The hypothesis of [history_holds_calculations] holds after [1+1] was
    entered and Return pressed. *)
Lemma history_holds_calculations_witness :
  exists evs : list event, forall L : Libm,
    let c := fold_left (fun c ev => handle ast_parse ev c) evs init in
    reachable ast_parse c
    /\ history c = ["1+1 = 2"]
    /\ Forall (calculation ast_parse) (history c).
Proof.
  exists [EntryEdit "1+1" 3; KeyReturn]. intros L. cbv zeta.
  assert (reachable ast_parse
            (fold_left (fun c ev => handle ast_parse ev c)
               [EntryEdit "1+1" 3; KeyReturn] init)) as Hr
    by (repeat apply reachable_handle; apply reachable_init).
  split; [exact Hr|]. split; [vm_compute; reflexivity|].
  exact (proj1 (history_holds_calculations ast_parse _ Hr)).
Defined.

(** The hypothesis of [last_answer_is_newest_result] holds after a press
    of Return. *)
Lemma last_answer_is_newest_result_witness :
  exists evs : list event, forall L : Libm,
    let c := fold_left (fun c ev => handle ast_parse ev c) evs init in
    reachable ast_parse c
    /\ ((history c = [] /\ history_list c = [] /\ last_answer c = "")
        \/ exists expr,
             history_list c !! 0%nat
             = Some (expr +:+ " = " +:+ last_answer c)
             /\ last (history c) = Some (expr +:+ " = " +:+ last_answer c)).
Proof.
  exists [EntryEdit "1+1" 3; KeyReturn]. intros L. cbv zeta.
  assert (reachable ast_parse
            (fold_left (fun c ev => handle ast_parse ev c)
               [EntryEdit "1+1" 3; KeyReturn] init)) as Hr
    by (repeat apply reachable_handle; apply reachable_init).
  split; [exact Hr|].
  exact (last_answer_is_newest_result ast_parse _ Hr).
Defined.

(** The hypotheses of [recall_restores] hold of the line [1+1 = 2]. *)
Lemma recall_restores_witness :
  exists (evs : list event) (idx : nat) (entry : string), forall L : Libm,
    let c := fold_left (fun c ev => handle ast_parse ev c) evs init in
    reachable ast_parse c
    /\ history_list c !! idx = Some entry
    /\ exists expr text,
         entry = expr +:+ " = " +:+ text
         /\ (has_equals expr = false ->
             let c' := on_history_select [idx] c in
             display_var c' = expr
             /\ display_var (evaluate ast_parse c') = text).
Proof.
  exists [EntryEdit "1+1" 3; KeyReturn], 0%nat, "1+1 = 2". intros L. cbv zeta.
  assert (reachable ast_parse
            (fold_left (fun c ev => handle ast_parse ev c)
               [EntryEdit "1+1" 3; KeyReturn] init)) as Hr
    by (repeat apply reachable_handle; apply reachable_init).
  assert (history_list
            (fold_left (fun c ev => handle ast_parse ev c)
               [EntryEdit "1+1" 3; KeyReturn] init) !! 0%nat
          = Some "1+1 = 2") as Hl by (vm_compute; reflexivity).
  split; [exact Hr|]. split; [exact Hl|].
  exact (recall_restores ast_parse _ 0%nat "1+1 = 2" Hr Hl).
Defined.

(** ** The text of an int and the number it is read as *)

(** ** The text of an int and the number it is read as *)

Lemma digits_value_snoc (ds : list ascii) (d : ascii) :
  digits_value 10 (ds ++ [d]) = digits_value 10 ds * 10 + digit_val d.
Proof. unfold digits_value. rewrite fold_left_app. reflexivity. Qed.

Lemma pretty_N_char_digit (k : N) :
  (k < 10)%N ->
  is_digit (pretty_N_char k) = true
  /\ digit_val (pretty_N_char k) = Z.of_N k
  /\ (k <> 0%N -> (code (pretty_N_char k) =? 48)%N = false).
Proof.
  intros Hk.
  assert (k = 0 \/ k = 1 \/ k = 2 \/ k = 3 \/ k = 4 \/ k = 5 \/ k = 6 \/ k = 7
          \/ k = 8 \/ k = 9)%N as Hcases by lia.
  repeat (destruct Hcases as [->|Hcases]); try subst k;
    (split; [reflexivity|split; [reflexivity|]]);
    intros H0; try reflexivity; congruence.
Qed.

(** The digits of a positive number: no leading zero, and their value is
    the number. *)
Lemma pretty_N_go_digits (x : N) (s : string) :
  (0 < x)%N ->
  exists d ds,
    list_ascii_of_string (pretty_N_go x s) = (d :: ds) ++ list_ascii_of_string s
    /\ forallb is_digit (d :: ds) = true
    /\ (code d =? 48)%N = false
    /\ digits_value 10 (d :: ds) = Z.of_N x.
Proof.
  revert s. induction x as [x IH] using (well_founded_induction N.lt_wf_0).
  intros s Hx. rewrite pretty_N_go_step by exact Hx.
  assert (x `mod` 10 < 10)%N as Hm by (apply N.mod_lt; lia).
  destruct (pretty_N_char_digit _ Hm) as (Hd & Hv & Hz).
  set (c := pretty_N_char (x `mod` 10)) in *.
  destruct (N.eq_dec (x `div` 10)%N 0%N) as [H0|H0].
  - rewrite H0, pretty_N_go_0. exists c, []. simpl.
    assert (x `mod` 10 = x)%N as Hx10.
    { pose proof (N.div_mod x 10%N ltac:(lia)) as Hdm. rewrite H0 in Hdm. lia. }
    rewrite Hd. repeat split.
    + apply Hz. lia.
    + unfold digits_value. simpl. rewrite Hv, Hx10. reflexivity.
  - assert (x `div` 10 < x)%N as Hlt by (apply N.div_lt; lia).
    assert (0 < x `div` 10)%N as Hpos by (apply N.neq_0_lt_0; exact H0).
    destruct (IH _ Hlt (String c s) Hpos) as (d & ds & Hl & Hds & Hd0 & Hval).
    exists d, (ds ++ [c]). rewrite Hl. simpl list_ascii_of_string.
    split; [simpl; f_equal; rewrite <- app_assoc; reflexivity|].
    split.
    { change (d :: ds ++ [c]) with ((d :: ds) ++ [c]).
      rewrite forallb_app, Hds. simpl. rewrite Hd. reflexivity. }
    split; [exact Hd0|].
    change (d :: ds ++ [c]) with ((d :: ds) ++ [c]).
    rewrite digits_value_snoc, Hval, Hv.
    pose proof (N.div_mod x 10%N ltac:(lia)) as Hdm. lia.
Qed.

Lemma pretty_positive_digits (p : positive) :
  exists d ds,
    pretty (Z.pos p) = string_of_list_ascii (d :: ds)
    /\ forallb is_digit (d :: ds) = true
    /\ (code d =? 48)%N = false
    /\ digits_value 10 (d :: ds) = Z.pos p.
Proof.
  destruct (pretty_N_go_digits (N.pos p) "" ltac:(lia))
    as (d & ds & Hl & Hds & Hd0 & Hval).
  exists d, ds. rewrite app_nil_r in Hl. repeat split; try assumption.
  rewrite <- Hl, string_of_list_ascii_of_string. reflexivity.
Qed.

Lemma length_list_ascii_of_string (s : string) :
  length (list_ascii_of_string s) = String.length s.
Proof. induction s as [|x s IH]; simpl; [reflexivity|]. rewrite IH. reflexivity. Qed.

Lemma length_digits (s : string) (l : list ascii) :
  s = string_of_list_ascii l -> length l = String.length s.
Proof.
  intros ->. rewrite <- length_list_ascii_of_string,
    list_ascii_of_string_of_list_ascii. reflexivity.
Qed.

Lemma digits_no_whitespace (ds : list ascii) :
  forallb is_digit ds = true -> Forall (fun c => is_whitespace c = false) ds.
Proof.
  induction ds as [|d ds IH]; [constructor|]. simpl. intros Hds.
  apply andb_true_iff in Hds as [Hd Hds]. constructor; [|exact (IH Hds)].
  code_solver.
Qed.

(** The text of an int is not empty and has no white space. *)
Lemma pretty_Z_text (n : Z) :
  pretty n <> "" /\ strip (pretty n) = pretty n.
Proof.
  destruct n as [|p|p].
  - split; [discriminate|reflexivity].
  - destruct (pretty_positive_digits p) as (d & ds & -> & Hds & _).
    split; [discriminate|]. apply strip_no_whitespace.
    rewrite list_ascii_of_string_of_list_ascii.
    apply digits_no_whitespace. exact Hds.
  - change (pretty (Z.neg p)) with ("-" +:+ pretty (Z.pos p)).
    destruct (pretty_positive_digits p) as (d & ds & -> & Hds & _).
    split; [discriminate|]. apply strip_no_whitespace.
    change (list_ascii_of_string ("-" +:+ string_of_list_ascii (d :: ds)))
      with ("-"%char
            :: list_ascii_of_string (string_of_list_ascii (d :: ds))).
    rewrite list_ascii_of_string_of_list_ascii.
    constructor; [reflexivity|]. apply digits_no_whitespace. exact Hds.
Qed.

Section WholeNumbers.
Context `{Libm}.

Lemma tokenize_from_digits (fuel : nat) (parenstack : list string)
    (d : ascii) (ds : list ascii) :
  forallb is_digit (d :: ds) = true ->
  (code d =? 48)%N = false ->
  too_many_digits (length (d :: ds)) = false ->
  tokenize_from (S (S fuel)) parenstack (d :: ds)
  = Ok [NUMBER (CInt (digits_value 10 (d :: ds)))].
Proof.
  intros Hds Hd0 Hlen.
  assert (is_digit d = true /\ forallb is_digit ds = true) as [Hd Hds'].
  { simpl in Hds. apply andb_true_iff in Hds. exact Hds. }
  rewrite (tokenize_from_number _ _ d ds
             (NUMBER (CInt (digits_value 10 (d :: ds)))) []);
    [reflexivity|exact Hd|].
  rewrite lex_number_digit; [|exact Hd|exact (hd_digits_next ds Hds')].
  apply lex_decimal_integer; try assumption.
  unfold leading_zero. destruct ds; [reflexivity|]. rewrite Hd0. reflexivity.
Qed.

Lemma lex_op_minus_digit (d : ascii) (ds : list ascii) :
  is_digit d = true ->
  lex_op ("-"%char :: d :: ds) = Some ("-", d :: ds).
Proof.
  intros Hd. unfold lex_op.
  change (is_op_char "-") with true. cbv iota.
  assert (two_chars "-" d = false) as H2 by code_solver.
  destruct ds as [|c r]; [rewrite H2; reflexivity|].
  assert (three_chars "-" d c = false) as ->.
  { unfold three_chars. change (code "-" =? 46)%N with false.
    assert ((code d =? code "-")%N = false) as -> by code_solver.
    rewrite andb_false_r. reflexivity. }
  rewrite H2. reflexivity.
Qed.

Lemma tokenize_from_minus (fuel : nat) (parenstack : list string)
    (rest r : list ascii) :
  lex_op ("-"%char :: rest) = Some ("-", r) ->
  tokenize_from (S fuel) parenstack ("-"%char :: rest)
  = ts ← tokenize_from fuel parenstack r; mret (OP "-" :: ts).
Proof. intros Hl. cbn [tokenize_from]. rewrite Hl. reflexivity. Qed.

Lemma tokenize_minus_digits (d : ascii) (ds : list ascii) :
  forallb is_digit (d :: ds) = true ->
  (code d =? 48)%N = false ->
  too_many_digits (length (d :: ds)) = false ->
  tokenize (String "-" (string_of_list_ascii (d :: ds)))
  = Ok [OP "-"; NUMBER (CInt (digits_value 10 (d :: ds)))].
Proof.
  intros Hds Hd0 Hlen.
  rewrite (tokenize_unindented _ "-"%char (d :: ds)); [|
    change (list_ascii_of_string (String "-" ?s))
      with ("-"%char :: list_ascii_of_string s);
    rewrite list_ascii_of_string_of_list_ascii; reflexivity
    |reflexivity|reflexivity].
  assert (is_digit d = true) as Hd
    by (simpl in Hds; apply andb_true_iff in Hds as [Hd _]; exact Hd).
  rewrite (tokenize_from_minus _ _ _ _ (lex_op_minus_digit d ds Hd)).
  change (length ("-"%char :: d :: ds)) with (S (S (length ds))).
  rewrite (tokenize_from_digits _ _ d ds Hds Hd0 Hlen). reflexivity.
Qed.

(** The text of an int is read back as that int. *)
Lemma ast_parse_pretty (n : Z) :
  too_many_digits (String.length (pretty (Z.abs n))) = false ->
  exists t, ast_parse (pretty n) = Ok t /\ _eval t = Ok (VInt n).
Proof.
  intros Hlen. unfold ast_parse. destruct n as [|p|p].
  - eexists. split; [vm_compute; reflexivity|reflexivity].
  - destruct (pretty_positive_digits p) as (d & ds & Hp & Hds & Hd0 & Hval).
    change (Z.abs (Z.pos p)) with (Z.pos p) in Hlen.
    rewrite <- (length_digits _ _ Hp) in Hlen. rewrite Hp.
    rewrite (tokenize_decimal_integer d ds Hds); [|
      unfold leading_zero; destruct ds; [reflexivity|rewrite Hd0; reflexivity]
      | exact Hlen].
    rewrite Hval. eexists. split; [vm_compute; reflexivity|reflexivity].
  - destruct (pretty_positive_digits p) as (d & ds & Hp & Hds & Hd0 & Hval).
    change (Z.abs (Z.neg p)) with (Z.pos p) in Hlen.
    rewrite <- (length_digits _ _ Hp) in Hlen.
    change (pretty (Z.neg p)) with ("-" +:+ pretty (Z.pos p)).
    rewrite Hp.
    change ("-" +:+ string_of_list_ascii (d :: ds))
      with (String "-" (string_of_list_ascii (d :: ds))).
    rewrite (tokenize_minus_digits d ds Hds Hd0 Hlen).
    rewrite Hval. eexists. split; [vm_compute; reflexivity|].
    vm_compute. reflexivity.
Qed.

Lemma str_int_Ok (n : Z) (text : string) :
  str (VInt n) = Ok text ->
  too_many_digits (String.length (pretty (Z.abs n))) = false
  /\ text = pretty n.
Proof.
  simpl. unfold str_int. destruct (too_many_digits _); [discriminate|].
  intros [= <-]. auto.
Qed.

Lemma safe_eval_expr_pretty (n : Z) :
  too_many_digits (String.length (pretty (Z.abs n))) = false ->
  safe_eval_expr (pretty n) = Ok (VInt n).
Proof.
  intros Hlen. destruct (ast_parse_pretty n Hlen) as (t & Hp & Ht).
  unfold safe_eval_expr, safe_eval_expr_with. rewrite Hp. simpl.
  rewrite Ht. reflexivity.
Qed.

(** X10.  The text an int is shown as evaluates back to that int: negative
    numbers too, read as a minus sign and a literal. *)
Theorem shown_int_evaluates_back (n : Z) (text : string) :
  str (VInt n) = Ok text -> safe_eval_expr text = Ok (VInt n).
Proof.
  intros Hs. apply str_int_Ok in Hs as [Hlen ->].
  apply safe_eval_expr_pretty. exact Hlen.
Qed.

Lemma toggle_sign_pretty (n : Z) (c : Calculator) :
  too_many_digits (String.length (pretty (Z.abs n))) = false ->
  display_var c = pretty n ->
  toggle_sign ast_parse c
  = set_result_shown true (set_display (pretty (- n)) c).
Proof.
  intros Hlen Hd. unfold toggle_sign. rewrite Hd.
  destruct (pretty_Z_text n) as [Hne _].
  apply String.eqb_neq in Hne. rewrite Hne.
  fold (safe_eval_expr (pretty n)). rewrite (safe_eval_expr_pretty n Hlen).
  simpl. unfold str_int. rewrite Z.abs_opp, Hlen. reflexivity.
Qed.

(** X11.  On an entry that shows an int, the sign key shows the negated
    int and sets the flag, and a second press shows the int again. *)
Theorem toggle_sign_negates_int (n : Z) (text : string) (c : Calculator) :
  str (VInt n) = Ok text -> display_var c = text ->
  display_var (toggle_sign ast_parse c) = pretty (- n)
  /\ result_shown (toggle_sign ast_parse c) = true
  /\ display_var (toggle_sign ast_parse (toggle_sign ast_parse c)) = text.
Proof.
  intros Hs Hd. apply str_int_Ok in Hs as [Hlen ->].
  rewrite (toggle_sign_pretty n c Hlen Hd).
  split; [reflexivity|]. split; [reflexivity|].
  rewrite (toggle_sign_pretty (- n)); [|rewrite Z.abs_opp; exact Hlen
                                      |reflexivity].
  rewrite Z.opp_involutive. reflexivity.
Qed.

(** X12.  When the value of the entry is a whole number, an int or a float
    without a fraction, an evaluation shows the int, and a second evaluation
    shows it again. *)
Theorem evaluate_again (c : Calculator) (v : value) (n : Z) (text : string) :
  safe_eval_expr (strip (display_var c)) = Ok v ->
  format_result v = VInt n ->
  str (VInt n) = Ok text ->
  display_var (evaluate ast_parse c) = text
  /\ display_var (evaluate ast_parse (evaluate ast_parse c)) = text.
Proof.
  intros Hv Hf Hs.
  assert (strip (display_var c) <> "") as Hne.
  { intros He. rewrite He in Hv. vm_compute in Hv. discriminate. }
  assert (result_text ast_parse (strip (display_var c)) = Ok text) as Ht.
  { unfold result_text. fold (safe_eval_expr (strip (display_var c))).
    rewrite Hv. simpl. rewrite Hf. exact Hs. }
  destruct (evaluate_shows ast_parse c Hne) as [Hd _]. rewrite Ht in Hd.
  split; [exact Hd|].
  apply str_int_Ok in Hs as [Hlen ->].
  destruct (pretty_Z_text n) as [Hne' Hstrip].
  assert (strip (display_var (evaluate ast_parse c)) <> "") as Hne2
    by (rewrite Hd, Hstrip; exact Hne').
  destruct (evaluate_shows ast_parse _ Hne2) as [-> _].
  rewrite Hd, Hstrip. unfold result_text.
  fold (safe_eval_expr (pretty n)). rewrite (safe_eval_expr_pretty n Hlen).
  simpl. unfold str_int. rewrite Hlen. reflexivity.
Qed.

(** ** The sign key and the arity of the functions *)

(** Spaces and tabs move the column to the right. *)
Lemma indentation_spaces (blanks : list ascii) (x : ascii)
    (rest : list ascii) (col : nat) :
  forallb (fun ch => (code ch =? 32)%N || (code ch =? 9)%N) blanks = true ->
  is_blank x = false ->
  exists col', indentation col (blanks ++ x :: rest) = (col', x :: rest)
               /\ (col <= col')%nat /\ (blanks <> [] -> (col < col')%nat).
Proof.
  intros Hbl Hx. revert col.
  induction blanks as [|b blanks IH]; intros col.
  { exists col. rewrite app_nil_l, (indentation_none _ _ _ Hx).
    split; [reflexivity|]. split; [lia|]. intros Hne. destruct Hne. reflexivity. }
  simpl in Hbl. apply andb_true_iff in Hbl as [Hb Hbl].
  rewrite <- app_comm_cons. cbn [indentation].
  destruct (code b =? 32)%N eqn:H32.
  - destruct (IH Hbl (S col)) as (col' & -> & Hle & _).
    exists col'. split; [reflexivity|]. split; intros; lia.
  - simpl in Hb. rewrite Hb.
    destruct (IH Hbl ((col / 8 + 1) * 8)%nat) as (col' & -> & Hle & _).
    exists col'. split; [reflexivity|].
    pose proof (Nat.div_mod_eq col 8) as Hdm.
    pose proof (Nat.mod_upper_bound col 8 ltac:(lia)) as Hm.
    split; intros; lia.
Qed.

(** X13.  The sign key does not strip the entry as an evaluation does: on
    an entry that starts with spaces and tabs, followed by a character of a
    token, which [ast.parse] refuses as indented, it puts [(-] in at the
    cursor, whatever comes after, and leaves the flag as it is. *)
Theorem toggle_sign_does_not_strip (c : Calculator) (blanks : list ascii)
    (x : ascii) (rest : list ascii) :
  display_var c = string_of_list_ascii (blanks ++ x :: rest) ->
  blanks <> [] ->
  forallb (fun ch => (code ch =? 32)%N || (code ch =? 9)%N) blanks = true ->
  (32 <? code x)%N && negb (code x =? 35)%N && negb (code x =? 92)%N = true ->
  toggle_sign ast_parse c = insert_text "(-" c
  /\ display_var (toggle_sign ast_parse c)
     = splice "(-" (cursor c) (display_var c)
  /\ result_shown (toggle_sign ast_parse c) = result_shown c.
Proof.
  intros Hd Hne Hbl Hx.
  assert (toggle_sign ast_parse c = insert_text "(-" c) as ->.
  { unfold toggle_sign. rewrite Hd.
    assert (String.eqb (string_of_list_ascii (blanks ++ x :: rest)) ""
            = false) as ->.
    { destruct blanks; [destruct Hne|]; reflexivity. }
    assert (exists e,
              ast_parse (string_of_list_ascii (blanks ++ x :: rest))
              = Raise e) as [e He].
    { unfold ast_parse, tokenize.
      rewrite list_ascii_of_string_of_list_ascii.
      assert (is_blank x = false) as Hxb by (clear -Hx; code_solver).
      destruct (indentation_spaces blanks x rest 0 Hbl Hxb)
        as (col & -> & _ & Hcol).
      assert ((code x =? 92)%N || (code x <=? 31)%N = false) as ->
        by (clear -Hx; code_solver).
      assert ((0 <? col)%nat && negb (code x =? 35)%N = true) as ->.
      { apply andb_true_iff. split; [apply Nat.ltb_lt; auto|].
        clear -Hx. code_solver. }
      unfold syntax_error, raise. simpl. eauto. }
    unfold safe_eval_expr_with. rewrite He. reflexivity. }
  split; [reflexivity|].
  unfold insert_text.
  change (isdigit "(-" || String.eqb "(-" "(" || String.eqb "(-" ".")
    with false.
  rewrite andb_false_r. split; reflexivity.
Qed.

(** A call whose arguments are not of the function's number raises. *)
Lemma call_wrong_arity (name : string) (f : callable) (vs : list value) :
  _ALLOWED_FUNCTIONS !! name = Some f ->
  (name ∈ ["sqrt"; "sin"; "cos"; "tan"; "log10"; "abs"]
   /\ length vs <> 1%nat)
  \/ (name ∈ ["log"; "round"] /\ (length vs = 0%nat \/ (2 < length vs)%nat)) ->
  exists e, call f vs = Raise e.
Proof.
  intros Hf [[Hname Hlen]|[Hname Hlen]];
    repeat (apply elem_of_cons in Hname as [->|Hname]);
    try (apply elem_of_nil in Hname; destruct Hname);
    vm_compute in Hf; injection Hf as <-;
    (destruct vs as [|v [|w [|u vs]]]; simpl in Hlen; try lia);
    unfold call, math_real, math_log_impl, math_log10_impl, py_abs, py_round,
      wrong_arity, raise; eauto;
    destruct v; eauto.
Qed.

(** X14.  For every parser: a call of sqrt, sin, cos, tan, log10 or abs
    with a number of positional arguments other than one, and a call of log
    or round with none or more than two, makes the evaluation fail, at
    any position of the tree that evaluation reaches. *)
Theorem wrong_arity_fails (parse : string -> result node) (s : string)
    (k : ectx) (name : string) (args : list node)
    (keywords : list (option string * node)) :
  parse s = Ok (fill k (Call (Name name) args keywords)) ->
  (name ∈ ["sqrt"; "sin"; "cos"; "tan"; "log10"; "abs"]
   /\ length args <> 1%nat)
  \/ (name ∈ ["log"; "round"]
      /\ (length args = 0%nat \/ (2 < length args)%nat)) ->
  exists msg, safe_eval_expr_with parse s = Raise (Exn ValueError msg).
Proof.
  intros Hp Hn. apply safe_eval_expr_with_fails.
  intros t Ht. rewrite Hp in Ht. injection Ht as <-.
  assert (exists e, _eval (Call (Name name) args keywords) = Raise e)
    as [e He]; [|eapply _eval_fill_Raise; exact He].
  assert (is_Some (_ALLOWED_FUNCTIONS !! name)) as [f Hf].
  { apply allowed_function_dom. unfold whitelisted_functions.
    destruct Hn as [[Hname _]|[Hname _]]; rewrite !elem_of_cons in *; tauto. }
  simpl. rewrite Hf.
  destruct (mapM _eval args) as [vs|e] eqn:Hm; simpl; [|eauto].
  apply mapM_Ok, Forall2_length in Hm. rewrite Hm in Hn.
  eapply call_wrong_arity; eassumption.
Qed.

End WholeNumbers.

(** The hypothesis of [shown_int_evaluates_back] holds of -42. *)
Lemma shown_int_evaluates_back_witness :
  exists text : string, forall L : Libm,
    str (VInt (-42)) = Ok text /\ safe_eval_expr text = Ok (VInt (-42)).
Proof.
  exists "-42". intros L.
  assert (str (VInt (-42)) = Ok "-42") as Hs by reflexivity.
  split; [exact Hs|]. exact (shown_int_evaluates_back (-42) "-42" Hs).
Defined.

(** The hypotheses of [toggle_sign_negates_int] hold of an entry that
    shows 5. *)
Lemma toggle_sign_negates_int_witness :
  exists (c : Calculator) (text : string), forall L : Libm,
    str (VInt 5) = Ok text /\ display_var c = text
    /\ display_var (toggle_sign ast_parse c) = "-5".
Proof.
  exists (set_display "5" init), "5". intros L.
  assert (str (VInt 5) = Ok "5") as Hs by reflexivity.
  split; [exact Hs|]. split; [reflexivity|].
  exact (proj1 (toggle_sign_negates_int 5 "5" (set_display "5" init)
                  Hs eq_refl)).
Defined.

(** The hypotheses of [evaluate_again] hold of the entry [8/2]. *)
Lemma evaluate_again_witness :
  exists (c : Calculator) (text : string), forall L : Libm,
    safe_eval_expr (strip (display_var c)) = Ok (VFloat 4)
    /\ format_result (VFloat 4) = VInt 4
    /\ str (VInt 4) = Ok text
    /\ display_var (evaluate ast_parse (evaluate ast_parse c)) = text.
Proof.
  exists (set_display "8/2" init), "4". intros L.
  assert (safe_eval_expr (strip (display_var (set_display "8/2" init)))
          = Ok (VFloat 4)) as Hv by (vm_compute; reflexivity).
  assert (format_result (VFloat 4) = VInt 4) as Hf
    by (vm_compute; reflexivity).
  assert (str (VInt 4) = Ok "4") as Hs by reflexivity.
  split; [exact Hv|]. split; [exact Hf|]. split; [exact Hs|].
  exact (proj2 (evaluate_again _ (VFloat 4) 4 "4" Hv Hf Hs)).
Defined.

(** The hypotheses of [toggle_sign_does_not_strip] hold of the entry [ 5]
    with its leading space, which an evaluation strips. *)
Lemma toggle_sign_does_not_strip_witness :
  exists c : Calculator, forall L : Libm,
    display_var c = string_of_list_ascii ([" "%char] ++ "5"%char :: [])
    /\ display_var (toggle_sign ast_parse c) = "(- 5"
    /\ display_var (evaluate ast_parse c) = "5".
Proof.
  exists (set_display " 5" init). intros L.
  split; [reflexivity|].
  split; [|vm_compute; reflexivity].
  refine (proj1 (proj2 (toggle_sign_does_not_strip (set_display " 5" init)
                          [" "%char] "5"%char [] eq_refl _ eq_refl eq_refl))).
  discriminate.
Defined.

(** The hypotheses of [wrong_arity_fails] hold of [1 + sqrt(4, 2)]. *)
Lemma wrong_arity_fails_witness :
  exists (k : ectx) (args : list node), forall L : Libm,
    ast_parse "1 + sqrt(4, 2)" = Ok (fill k (Call (Name "sqrt") args []))
    /\ length args <> 1%nat
    /\ exists msg,
         safe_eval_expr "1 + sqrt(4, 2)" = Raise (Exn ValueError msg).
Proof.
  exists (InExpression (InRight (Constant (CInt 1)) Add Hole)),
    [Constant (CInt 4); Constant (CInt 2)].
  intros L.
  assert (ast_parse "1 + sqrt(4, 2)"
          = Ok (fill (InExpression (InRight (Constant (CInt 1)) Add Hole))
                  (Call (Name "sqrt")
                     [Constant (CInt 4); Constant (CInt 2)] [])))
    as Hp by (vm_compute; reflexivity).
  split; [exact Hp|]. split; [simpl; lia|].
  refine (wrong_arity_fails ast_parse _ _ "sqrt" _ [] Hp _).
  left. split; [apply list_elem_of_here|simpl; lia].
Defined.
